(** * Chunked video upload (EnhancedVideoUpload) -- a shallow embedding

    The development follows the React component [EnhancedVideoUpload]
    (src/unnamed/part_005): file validation, chunk partitioning, the
    sequential transfer loop with its progress bookkeeping, the completion
    handshake and the form reset.

    Conventions of the embedding.
    - Byte counts ([File.size], chunk offsets, [uploadedBytes]) are exact
      integers ([Z]); they stay far below 2^53, where JavaScript numbers are
      exact.
    - Derived quantities ([percentage], [speed], [remaining]) are JavaScript
      numbers: exact rationals extended with [Infinity], [-Infinity] and
      [NaN], so that a division by zero behaves as it does in JavaScript.
      Rounding and the sign of zero are not represented.
    - Strings are sequences of ASCII characters.
    - A callback created by [useCallback] reads two things: the values that
      were captured when the component rendered (the [Render]) and, through
      functional updates [setX(prev => ...)], the current React state (the
      [Store]).  Both are explicit.
    - The network, the clock and the media decoder are oracles; everything a
      callback does to the outside is logged as a list of [Event]s. *)

From Stdlib Require Import ZArith QArith Qminmax List String Ascii Bool Lia Lqa.
From Stdlib Require Import DecimalString.
Import ListNotations.

Local Open Scope Z_scope.

(** ** JavaScript numbers *)

Module JsNum.

Inductive num : Type :=
| Fin (q : Q)
| PosInf
| NegInf
| NaN.

Definition of_Z (z : Z) : num := Fin (inject_Z z).

Definition is_zero (a : num) : bool :=
  match a with
  | Fin q => Qeq_bool q 0
  | _ => false
  end.

Definition is_finite (a : num) : bool :=
  match a with
  | Fin _ => true
  | _ => false
  end.

(** [a / b] *)
Definition div (a b : num) : num :=
  match a, b with
  | NaN, _ => NaN
  | _, NaN => NaN
  | Fin x, Fin y =>
      if Qeq_bool y 0 then
        match (x ?= 0)%Q with
        | Eq => NaN
        | Gt => PosInf
        | Lt => NegInf
        end
      else Fin (x / y)
  | Fin _, PosInf => Fin 0
  | Fin _, NegInf => Fin 0
  | PosInf, Fin y => if Qle_bool 0 y then PosInf else NegInf
  | NegInf, Fin y => if Qle_bool 0 y then NegInf else PosInf
  | PosInf, PosInf | PosInf, NegInf | NegInf, PosInf | NegInf, NegInf => NaN
  end.

Definition inf_of_sign (c : comparison) : num :=
  match c with
  | Eq => NaN
  | Gt => PosInf
  | Lt => NegInf
  end.

(** [a * b] *)
Definition mul (a b : num) : num :=
  match a, b with
  | NaN, _ => NaN
  | _, NaN => NaN
  | Fin x, Fin y => Fin (x * y)
  | Fin x, PosInf => inf_of_sign (x ?= 0)%Q
  | Fin x, NegInf => inf_of_sign (0 ?= x)%Q
  | PosInf, Fin y => inf_of_sign (y ?= 0)%Q
  | NegInf, Fin y => inf_of_sign (0 ?= y)%Q
  | PosInf, PosInf | NegInf, NegInf => PosInf
  | PosInf, NegInf | NegInf, PosInf => NegInf
  end.

(** [a <= b]; false as soon as one side is [NaN]. *)
Definition le (a b : num) : Prop :=
  match a, b with
  | NaN, _ => False
  | _, NaN => False
  | NegInf, _ => True
  | _, PosInf => True
  | Fin x, Fin y => (x <= y)%Q
  | _, _ => False
  end.

(** Numeric equality ([NaN] equals nothing). *)
Definition eq (a b : num) : Prop :=
  match a, b with
  | Fin x, Fin y => (x == y)%Q
  | PosInf, PosInf => True
  | NegInf, NegInf => True
  | _, _ => False
  end.

(** [Math.min(Math.max(a, lo), hi)] on finite bounds. *)
Definition clamp (lo hi : Q) (a : num) : num :=
  match a with
  | Fin x => Fin (Qmin (Qmax x lo) hi)
  | PosInf => Fin hi
  | NegInf => Fin lo
  | NaN => NaN
  end.

End JsNum.

Abbreviation num := JsNum.num.

(** ** JavaScript strings *)

Module JsString.

Local Open Scope char_scope.

Definition lower_char (c : ascii) : ascii :=
  let n := nat_of_ascii c in
  if (Nat.leb 65 n && Nat.leb n 90)%bool then ascii_of_nat (n + 32) else c.

(** [s.toLowerCase()] *)
Fixpoint toLowerCase (s : string) : string :=
  match s with
  | EmptyString => EmptyString
  | String c s' => String (lower_char c) (toLowerCase s')
  end.

(** [s.split(sep)] for a one-character separator; never empty. *)
Fixpoint split (sep : ascii) (s : string) : list string :=
  match s with
  | EmptyString => [EmptyString]
  | String c s' =>
      if Ascii.eqb c sep then EmptyString :: split sep s'
      else match split sep s' with
           | [] => [String c EmptyString]
           | seg :: segs => String c seg :: segs
           end
  end.

(** [arr.pop()]: the last element, [undefined] on an empty array. *)
Definition pop (l : list string) : option string :=
  match rev l with
  | [] => None
  | x :: _ => Some x
  end.

(** [s.startsWith(p)] *)
Definition startsWith (p s : string) : bool := String.prefix p s.

(** [arr.includes(x)] *)
Definition includes (x : string) (l : list string) : bool :=
  existsb (String.eqb x) l.

(** [arr.join(sep)] *)
Fixpoint join (sep : string) (l : list string) : string :=
  match l with
  | [] => EmptyString
  | [x] => x
  | x :: rest => (x ++ sep ++ join sep rest)%string
  end.

(** White space removed by [trim()] (ASCII part). *)
Definition is_space (c : ascii) : bool :=
  let n := nat_of_ascii c in
  (Nat.eqb n 32 || (Nat.leb 9 n && Nat.leb n 13))%bool.

Fixpoint all_space (s : string) : bool :=
  match s with
  | EmptyString => true
  | String c s' => (is_space c && all_space s')%bool
  end.

(** [!s.trim()]: the trimmed string is empty. *)
Definition blank (s : string) : bool := all_space s.

Fixpoint has_char (c : ascii) (s : string) : bool :=
  match s with
  | EmptyString => false
  | String d s' => (Ascii.eqb c d || has_char c s')%bool
  end.

Definition is_empty (s : string) : bool :=
  match s with
  | EmptyString => true
  | _ => false
  end.

(** [s.replace(/\.[^/.]+$/, '')]: drops a final [.ext] when [ext] is not
    empty and has no slash. *)
Definition strip_extension (s : string) : string :=
  let segs := split "." s in
  match pop segs with
  | Some ext =>
      if (Nat.ltb 1 (List.length segs) && negb (is_empty ext)
          && negb (has_char "/" ext))%bool
      then join "." (removelast segs)
      else s
  | None => s
  end.

(** Truthiness of a [string | null] value. *)
Definition truthy (o : option string) : bool :=
  match o with
  | Some s => negb (is_empty s)
  | None => false
  end.

End JsString.

(** ** Data model *)

(** A browser [File]: only what the component reads. *)
Record File : Type := {
  name : string;
  size : Z;
  type : string
}.

(** A [Blob] cut out of the selected file: the bytes
    [blob_off, blob_off + blob_size). *)
Record Blob : Type := {
  blob_off : Z;
  blob_size : Z
}.

(** [file.slice(start, end)] as the File API defines it: negative positions
    count from the end, everything is clamped to the file. *)
Definition slice (f : File) (start end_ : Z) : Blob :=
  let rel p := if p <? 0 then Z.max (size f + p) 0 else Z.min p (size f) in
  let s := rel start in
  let e := rel end_ in
  {| blob_off := s; blob_size := Z.max (e - s) 0 |}.

(** interface UploadChunk *)
Record UploadChunk : Type := {
  chunk : Blob;
  index : Z;
  start : Z;
  end_ : Z;
  uploaded : bool
}.

Inductive Status : Type := idle | uploading | processing | completed | error.

(** interface VideoMetadata; [thumbnail] is present when the canvas could be
    exported. *)
Record VideoMetadata : Type := {
  duration : num;
  width : Z;
  height : Z;
  md_size : Z;
  format : option string;
  thumbnail : option string
}.

(** interface UploadProgress *)
Record UploadProgress : Type := {
  total : Z;
  uploaded_bytes : Z;
  percentage : num;
  speed : num;
  remaining : num;
  chunks : list UploadChunk;
  status : Status;
  error_message : option string
}.

Inductive Difficulty : Type := beginner | intermediate | advanced.
Inductive Privacy : Type := public | private | unlisted.

(** The session returned by /api/cloudinary/init. *)
Record Session : Type := {
  uploadId : option string;
  uploadUrl : option string;
  uploadPreset : option string;
  cloudName : option string
}.

(** "Form state" *)
Record Form : Type := {
  title : string;
  description : string;
  position : Z;
  tags : list string;
  difficulty : Difficulty;
  isPreview : bool;
  enableComments : bool;
  enableDownloads : bool
}.

(** "Settings state" *)
Record Settings : Type := {
  selectedQuality : string;
  selectedFormat : string;
  enableWatermark : bool;
  enableSubtitles : bool;
  privacy : Privacy
}.

(** The React state of the component. *)
Record Store : Type := {
  open : bool;
  videoFile : option File;
  videoMetadata : option VideoMetadata;
  uploadProgress : UploadProgress;
  session : Session;
  form : Form;
  settings : Settings
}.

(** interface VideoUploadProps ([onSuccess] is optional: the flag says
    whether it was passed). *)
Record Props : Type := {
  courseId : string;
  onSuccess : bool;
  maxFileSize : Z;
  allowedFormats : list string;
  chunkSize : Z;
  enableResume : bool
}.

Definition DEFAULT_CHUNK_SIZE : Z := 5 * 1024 * 1024.
Definition DEFAULT_MAX_FILE_SIZE : Z := 2 * 1024 * 1024 * 1024.
Definition SUPPORTED_FORMATS : list string :=
  ["mp4"; "avi"; "mov"; "wmv"; "flv"; "webm"; "mkv"; "m4v"]%string.

Definition default_props (course : string) (callback : bool) : Props :=
  {| courseId := course;
     onSuccess := callback;
     maxFileSize := DEFAULT_MAX_FILE_SIZE;
     allowedFormats := SUPPORTED_FORMATS;
     chunkSize := DEFAULT_CHUNK_SIZE;
     enableResume := true |}.

(** The values of the [useState] initialisers, which are also what
    [resetForm] writes. *)
Definition idle_progress : UploadProgress :=
  {| total := 0;
     uploaded_bytes := 0;
     percentage := JsNum.of_Z 0;
     speed := JsNum.of_Z 0;
     remaining := JsNum.of_Z 0;
     chunks := [];
     status := idle;
     error_message := None |}.

Definition no_session : Session :=
  {| uploadId := None; uploadUrl := None; uploadPreset := None; cloudName := None |}.

Definition default_form : Form :=
  {| title := ""; description := ""; position := 0; tags := [];
     difficulty := beginner; isPreview := false;
     enableComments := true; enableDownloads := false |}.

Definition default_settings : Settings :=
  {| selectedQuality := "auto"; selectedFormat := "mp4";
     enableWatermark := false; enableSubtitles := false; privacy := public |}.

Definition default_store : Store :=
  {| open := false;
     videoFile := None;
     videoMetadata := None;
     uploadProgress := idle_progress;
     session := no_session;
     form := default_form;
     settings := default_settings |}.

(** What a callback sees: the props and the state as they were when the
    component last rendered. *)
Record Render : Type := {
  props : Props;
  snap : Store
}.

(** ** File validation *)

Inductive ValidationError : Type :=
| FileTooLarge (file_bytes max_bytes : Z)
| UnsupportedFormat (allowed : list string)
| NotAVideo.

(** The result [{ valid, error? }] of [validateFile]; the message shown to
    the user is rendered from [verror]. *)
Record Validation : Type := {
  valid : bool;
  verror : option ValidationError
}.

(** [file.name.split('.').pop()?.toLowerCase()] *)
Definition extension_of (f : File) : option string :=
  option_map JsString.toLowerCase (JsString.pop (JsString.split "." (name f))).

Definition validateFile (p : Props) (file : File) : Validation :=
  if maxFileSize p <? size file then
    {| valid := false; verror := Some (FileTooLarge (size file) (maxFileSize p)) |}
  else
    match extension_of file with
    | None =>
        {| valid := false; verror := Some (UnsupportedFormat (allowedFormats p)) |}
    | Some extension =>
        if (JsString.is_empty extension
            || negb (JsString.includes extension (allowedFormats p)))%bool
        then {| valid := false; verror := Some (UnsupportedFormat (allowedFormats p)) |}
        else if negb (JsString.startsWith "video/" (type file))
        then {| valid := false; verror := Some NotAVideo |}
        else {| valid := true; verror := None |}
    end.

(** ** Chunk partitioning *)

(** The [while (start < videoFile.size)] loop of [initializeUpload].  [fuel]
    bounds the number of iterations; [None] means the bound was reached with
    the loop still running. *)
Fixpoint create_chunks (fuel : nat) (f : File) (chunk_size start_ index_ : Z)
  : option (list UploadChunk) :=
  if start_ <? size f then
    match fuel with
    | O => None
    | S fuel' =>
        let e := Z.min (start_ + chunk_size) (size f) in
        let c := {| chunk := slice f start_ e;
                    index := index_;
                    start := start_;
                    end_ := e;
                    uploaded := false |} in
        option_map (cons c) (create_chunks fuel' f chunk_size e (index_ + 1))
    end
  else Some [].

(** ** The outside world *)

(** The JSON bodies the component reads: [data.uploadId], [data.uploadUrl],
    [data.uploadPreset], [data.cloudName] and [data.video?.url]. *)
Record Json : Type := {
  j_uploadId : option string;
  j_uploadUrl : option string;
  j_uploadPreset : option string;
  j_cloudName : option string;
  j_video_url : option string
}.

(** [response.json()] either yields the parsed body or rejects. *)
Inductive Body : Type :=
| JsonOk (data : Json)
| JsonBad (msg : string).

(** [fetch] either rejects (no answer) or resolves to a response whose [ok]
    flag tells a 2xx status. *)
Inductive Response : Type :=
| NetFail (msg : string)
| Resp (ok : bool) (body : Body).

Inductive Request : Type :=
| ReqInit (fileName : string) (fileSize : Z) (course : string)
| ReqChunk (url : string) (file : Blob) (upload_preset : string)
           (chunk_index total_chunks : string) (upload_id : option string)
| ReqComplete (upload_id : option string) (course : string)
              (fields : Form) (options : Settings).

Inductive Toast : Type :=
| ToastInvalidFile (why : option ValidationError)
| ToastFileSelected (fileName : string) (fileSize : Z)
| ToastProcessFailed
| ToastInitFailed
| ToastUploadSuccessful
| ToastCompleteFailed
| ToastNoFile
| ToastTitleRequired.

Inductive Event : Type :=
| EvFetch (req : Request) (resp : Response)
| EvToast (t : Toast)
| EvOnSuccess (videoUrl : option string)
| EvProgress (p : UploadProgress).

(** A thrown [Error]. *)
Record JsError : Type := { message : string }.

Record Oracle : Type := {
  net : nat -> Response;      (* the answer to the n-th [fetch] *)
  now : nat -> Z;             (* the n-th reading of [Date.now()] *)
  decode : File -> option VideoMetadata  (* [None]: [video.onerror] fired *)
}.

Record World : Type := {
  store : Store;
  fetches : nat;
  ticks : nat
}.

(** ** A state, log and exception monad for the callbacks *)

Inductive Outcome (A : Type) : Type :=
| Ret (a : A)
| Throw (e : JsError)
| Diverge.

Arguments Ret {A} a.
Arguments Throw {A} e.
Arguments Diverge {A}.

Record Result (A : Type) : Type := {
  out : Outcome A;
  final : World;
  log : list Event
}.

Arguments out {A} _.
Arguments final {A} _.
Arguments log {A} _.

Definition M (A : Type) : Type := World -> Result A.

Definition ret {A} (a : A) : M A :=
  fun w => {| out := Ret a; final := w; log := [] |}.

Definition throw {A} (e : JsError) : M A :=
  fun w => {| out := Throw e; final := w; log := [] |}.

Definition diverge {A} : M A :=
  fun w => {| out := Diverge; final := w; log := [] |}.

Definition bind {A B} (m : M A) (k : A -> M B) : M B :=
  fun w =>
    match m w with
    | {| out := Ret a; final := w1; log := l1 |} =>
        match k a w1 with
        | {| out := o; final := w2; log := l2 |} =>
            {| out := o; final := w2; log := l1 ++ l2 |}
        end
    | {| out := Throw e; final := w1; log := l1 |} =>
        {| out := Throw e; final := w1; log := l1 |}
    | {| out := Diverge; final := w1; log := l1 |} =>
        {| out := Diverge; final := w1; log := l1 |}
    end.

(** [try { m } catch (e) { h e }] *)
Definition try_catch {A} (m : M A) (h : JsError -> M A) : M A :=
  fun w =>
    match m w with
    | {| out := Throw e; final := w1; log := l1 |} =>
        match h e w1 with
        | {| out := o; final := w2; log := l2 |} =>
            {| out := o; final := w2; log := l1 ++ l2 |}
        end
    | res => res
    end.

Definition emit (e : Event) : M unit :=
  fun w => {| out := Ret tt; final := w; log := [e] |}.

Declare Scope js_scope.
Delimit Scope js_scope with js.
Notation "x <- m ;; k" := (bind m (fun x => k))
  (at level 61, m at next level, right associativity) : js_scope.
Notation "m ;; k" := (bind m (fun _ => k))
  (at level 61, right associativity) : js_scope.
Local Open Scope js_scope.

(** ** React state setters *)

Definition set_open v (s : Store) : Store :=
  {| open := v; videoFile := videoFile s; videoMetadata := videoMetadata s;
     uploadProgress := uploadProgress s; session := session s;
     form := form s; settings := settings s |}.

Definition set_videoFile v (s : Store) : Store :=
  {| open := open s; videoFile := v; videoMetadata := videoMetadata s;
     uploadProgress := uploadProgress s; session := session s;
     form := form s; settings := settings s |}.

Definition set_videoMetadata v (s : Store) : Store :=
  {| open := open s; videoFile := videoFile s; videoMetadata := v;
     uploadProgress := uploadProgress s; session := session s;
     form := form s; settings := settings s |}.

Definition set_uploadProgress v (s : Store) : Store :=
  {| open := open s; videoFile := videoFile s; videoMetadata := videoMetadata s;
     uploadProgress := v; session := session s;
     form := form s; settings := settings s |}.

Definition set_session v (s : Store) : Store :=
  {| open := open s; videoFile := videoFile s; videoMetadata := videoMetadata s;
     uploadProgress := uploadProgress s; session := v;
     form := form s; settings := settings s |}.

Definition set_form v (s : Store) : Store :=
  {| open := open s; videoFile := videoFile s; videoMetadata := videoMetadata s;
     uploadProgress := uploadProgress s; session := session s;
     form := v; settings := settings s |}.

Definition set_settings v (s : Store) : Store :=
  {| open := open s; videoFile := videoFile s; videoMetadata := videoMetadata s;
     uploadProgress := uploadProgress s; session := session s;
     form := form s; settings := v |}.

Definition with_uploadId v (x : Session) : Session :=
  {| uploadId := v; uploadUrl := uploadUrl x;
     uploadPreset := uploadPreset x; cloudName := cloudName x |}.
Definition with_uploadUrl v (x : Session) : Session :=
  {| uploadId := uploadId x; uploadUrl := v;
     uploadPreset := uploadPreset x; cloudName := cloudName x |}.
Definition with_uploadPreset v (x : Session) : Session :=
  {| uploadId := uploadId x; uploadUrl := uploadUrl x;
     uploadPreset := v; cloudName := cloudName x |}.
Definition with_cloudName v (x : Session) : Session :=
  {| uploadId := uploadId x; uploadUrl := uploadUrl x;
     uploadPreset := uploadPreset x; cloudName := v |}.

Definition with_title v (x : Form) : Form :=
  {| title := v; description := description x; position := position x;
     tags := tags x; difficulty := difficulty x; isPreview := isPreview x;
     enableComments := enableComments x; enableDownloads := enableDownloads x |}.
Definition with_description v (x : Form) : Form :=
  {| title := title x; description := v; position := position x;
     tags := tags x; difficulty := difficulty x; isPreview := isPreview x;
     enableComments := enableComments x; enableDownloads := enableDownloads x |}.
Definition with_position v (x : Form) : Form :=
  {| title := title x; description := description x; position := v;
     tags := tags x; difficulty := difficulty x; isPreview := isPreview x;
     enableComments := enableComments x; enableDownloads := enableDownloads x |}.
Definition with_tags v (x : Form) : Form :=
  {| title := title x; description := description x; position := position x;
     tags := v; difficulty := difficulty x; isPreview := isPreview x;
     enableComments := enableComments x; enableDownloads := enableDownloads x |}.
Definition with_difficulty v (x : Form) : Form :=
  {| title := title x; description := description x; position := position x;
     tags := tags x; difficulty := v; isPreview := isPreview x;
     enableComments := enableComments x; enableDownloads := enableDownloads x |}.
Definition with_isPreview v (x : Form) : Form :=
  {| title := title x; description := description x; position := position x;
     tags := tags x; difficulty := difficulty x; isPreview := v;
     enableComments := enableComments x; enableDownloads := enableDownloads x |}.
Definition with_enableComments v (x : Form) : Form :=
  {| title := title x; description := description x; position := position x;
     tags := tags x; difficulty := difficulty x; isPreview := isPreview x;
     enableComments := v; enableDownloads := enableDownloads x |}.
Definition with_enableDownloads v (x : Form) : Form :=
  {| title := title x; description := description x; position := position x;
     tags := tags x; difficulty := difficulty x; isPreview := isPreview x;
     enableComments := enableComments x; enableDownloads := v |}.

Definition with_selectedQuality v (x : Settings) : Settings :=
  {| selectedQuality := v; selectedFormat := selectedFormat x;
     enableWatermark := enableWatermark x; enableSubtitles := enableSubtitles x;
     privacy := privacy x |}.
Definition with_selectedFormat v (x : Settings) : Settings :=
  {| selectedQuality := selectedQuality x; selectedFormat := v;
     enableWatermark := enableWatermark x; enableSubtitles := enableSubtitles x;
     privacy := privacy x |}.
Definition with_enableWatermark v (x : Settings) : Settings :=
  {| selectedQuality := selectedQuality x; selectedFormat := selectedFormat x;
     enableWatermark := v; enableSubtitles := enableSubtitles x;
     privacy := privacy x |}.
Definition with_enableSubtitles v (x : Settings) : Settings :=
  {| selectedQuality := selectedQuality x; selectedFormat := selectedFormat x;
     enableWatermark := enableWatermark x; enableSubtitles := v;
     privacy := privacy x |}.
Definition with_privacy v (x : Settings) : Settings :=
  {| selectedQuality := selectedQuality x; selectedFormat := selectedFormat x;
     enableWatermark := enableWatermark x; enableSubtitles := enableSubtitles x;
     privacy := v |}.

(** [setX(...)] for a piece of state other than the progress. *)
Definition setState (f : Store -> Store) : M unit :=
  fun w =>
    {| out := Ret tt;
       final := {| store := f (store w); fetches := fetches w; ticks := ticks w |};
       log := [] |}.

(** [setUploadProgress(prev => f prev)]; the value written is logged. *)
Definition setUploadProgress (f : UploadProgress -> UploadProgress) : M unit :=
  fun w =>
    let p := f (uploadProgress (store w)) in
    {| out := Ret tt;
       final := {| store := set_uploadProgress p (store w);
                   fetches := fetches w; ticks := ticks w |};
       log := [EvProgress p] |}.

Definition setOpen v := setState (set_open v).
Definition setVideoFile v := setState (set_videoFile v).
Definition setVideoMetadata v := setState (set_videoMetadata v).
Definition setUploadId v := setState (fun s => set_session (with_uploadId v (session s)) s).
Definition setUploadUrl v := setState (fun s => set_session (with_uploadUrl v (session s)) s).
Definition setUploadPreset v := setState (fun s => set_session (with_uploadPreset v (session s)) s).
Definition setCloudName v := setState (fun s => set_session (with_cloudName v (session s)) s).
Definition setTitle v := setState (fun s => set_form (with_title v (form s)) s).
Definition setDescription v := setState (fun s => set_form (with_description v (form s)) s).
Definition setPosition v := setState (fun s => set_form (with_position v (form s)) s).
Definition setTags v := setState (fun s => set_form (with_tags v (form s)) s).
Definition setDifficulty v := setState (fun s => set_form (with_difficulty v (form s)) s).
Definition setIsPreview v := setState (fun s => set_form (with_isPreview v (form s)) s).
Definition setEnableComments v := setState (fun s => set_form (with_enableComments v (form s)) s).
Definition setEnableDownloads v := setState (fun s => set_form (with_enableDownloads v (form s)) s).
Definition setSelectedQuality v := setState (fun s => set_settings (with_selectedQuality v (settings s)) s).
Definition setSelectedFormat v := setState (fun s => set_settings (with_selectedFormat v (settings s)) s).
Definition setEnableWatermark v := setState (fun s => set_settings (with_enableWatermark v (settings s)) s).
Definition setEnableSubtitles v := setState (fun s => set_settings (with_enableSubtitles v (settings s)) s).
Definition setPrivacy v := setState (fun s => set_settings (with_privacy v (settings s)) s).

(** Field updates of the progress record, [{ ...prev, field: v }]. *)
Definition started (file_size : Z) (cs : list UploadChunk) (prev : UploadProgress)
  : UploadProgress :=
  {| total := file_size; uploaded_bytes := uploaded_bytes prev;
     percentage := percentage prev; speed := speed prev;
     remaining := remaining prev; chunks := cs; status := uploading;
     error_message := error_message prev |}.

Definition with_status (st : Status) (msg : option string) (prev : UploadProgress)
  : UploadProgress :=
  {| total := total prev; uploaded_bytes := uploaded_bytes prev;
     percentage := percentage prev; speed := speed prev;
     remaining := remaining prev; chunks := chunks prev; status := st;
     error_message := msg |}.

Definition with_chunks (cs : list UploadChunk) (prev : UploadProgress)
  : UploadProgress :=
  {| total := total prev; uploaded_bytes := uploaded_bytes prev;
     percentage := percentage prev; speed := speed prev;
     remaining := remaining prev; chunks := cs; status := status prev;
     error_message := error_message prev |}.

Definition set_uploaded (b : bool) (c : UploadChunk) : UploadChunk :=
  {| chunk := chunk c; index := index c; start := start c; end_ := end_ c;
     uploaded := b |}.

(** [arr.map((c, index) => f index c)], counting from [k]. *)
Fixpoint mapi_from {A B} (k : nat) (f : nat -> A -> B) (l : list A) : list B :=
  match l with
  | [] => []
  | x :: l' => f k x :: mapi_from (S k) f l'
  end.

(** [chunks.map((c, index) => index === i ? { ...c, uploaded: b } : c)] *)
Definition mark (i : nat) (b : bool) (cs : list UploadChunk) : list UploadChunk :=
  mapi_from 0 (fun idx c => if Nat.eqb idx i then set_uploaded b c else c) cs.

(** [n.toString()] for an integer. *)
Definition toString (z : Z) : string :=
  DecimalString.NilZero.string_of_int (Z.to_int z).

(** ** The callbacks of the component *)

Section Component.

Variable O : Oracle.

(** [await fetch(...)]: rejects when the network gives no answer. *)
Definition fetch (req : Request) : M Response :=
  fun w =>
    let resp := net O (fetches w) in
    let w' := {| store := store w; fetches := S (fetches w); ticks := ticks w |} in
    {| out := match resp with
              | NetFail msg => Throw {| message := msg |}
              | Resp _ _ => Ret resp
              end;
       final := w';
       log := [EvFetch req resp] |}.

Definition response_ok (resp : Response) : bool :=
  match resp with
  | Resp ok _ => ok
  | NetFail _ => false
  end.

(** [await response.json()] *)
Definition json (resp : Response) : M Json :=
  match resp with
  | Resp _ (JsonOk data) => ret data
  | Resp _ (JsonBad msg) => throw {| message := msg |}
  | NetFail msg => throw {| message := msg |}
  end.

(** [Date.now()] *)
Definition date_now : M Z :=
  fun w =>
    {| out := Ret (now O (ticks w));
       final := {| store := store w; fetches := fetches w; ticks := S (ticks w) |};
       log := [] |}.

Definition toast (t : Toast) : M unit := emit (EvToast t).

(** [extractVideoMetadata]: resolved by the browser's decoder. *)
Definition extractVideoMetadata (file : File) : M VideoMetadata :=
  match decode O file with
  | Some metadata => ret metadata
  | None => throw {| message := "Failed to load video metadata" |}
  end.

(** [handleFileSelect]; [picked] is [e.target.files?.[0]]. *)
Definition handleFileSelect (r : Render) (picked : option File) : M unit :=
  match picked with
  | None => ret tt
  | Some file =>
      let validation := validateFile (props r) file in
      if negb (valid validation) then
        toast (ToastInvalidFile (verror validation))
      else
        setVideoFile (Some file) ;;
        try_catch
          (metadata <- extractVideoMetadata file ;;
           setVideoMetadata (Some metadata) ;;
           setTitle (JsString.strip_extension (name file)) ;;
           toast (ToastFileSelected (name file) (size file)))
          (fun _ => toast ToastProcessFailed)
  end.

(** The chunk list of [initializeUpload]; running out of [fuel] stands for
    a loop that does not end. *)
Definition createChunks (fuel : nat) (r : Render) (file : File)
  : M (list UploadChunk) :=
  match create_chunks fuel file (chunkSize (props r)) 0 0 with
  | Some cs => ret cs
  | None => diverge
  end.

Definition initializeUpload (fuel : nat) (r : Render) : M (option Json) :=
  match videoFile (snap r) with
  | None => ret None
  | Some file =>
      try_catch
        (response <- fetch (ReqInit (name file) (size file) (courseId (props r))) ;;
         if negb (response_ok response) then
           throw {| message := "Failed to initialize upload" |}
         else
           data <- json response ;;
           setUploadId (j_uploadId data) ;;
           setUploadUrl (j_uploadUrl data) ;;
           setUploadPreset (j_uploadPreset data) ;;
           setCloudName (j_cloudName data) ;;
           cs <- createChunks fuel r file ;;
           setUploadProgress (started (size file) cs) ;;
           ret (Some data))
        (fun e => toast ToastInitFailed ;; throw e)
  end.

Definition session_ready (s : Session) : bool :=
  (JsString.truthy (uploadUrl s) && JsString.truthy (uploadPreset s)
   && JsString.truthy (cloudName s))%bool.

Definition chunk_request (r : Render) (c : UploadChunk) : Request :=
  let s := session (snap r) in
  ReqChunk (match uploadUrl s with Some u => u | None => "" end)
           (chunk c)
           (match uploadPreset s with Some u => u | None => "" end)
           (toString (index c))
           (toString (Z.of_nat (List.length (chunks (uploadProgress (snap r))))))
           (uploadId s).

Definition uploadChunk (r : Render) (c : UploadChunk) : M unit :=
  if negb (session_ready (session (snap r))) then
    throw {| message := "Upload not initialized" |}
  else
    response <- fetch (chunk_request r c) ;;
    if negb (response_ok response) then
      throw {| message := ("Failed to upload chunk " ++ toString (index c))%string |}
    else
      _ <- json response ;;
      ret tt.

(** What the loop of [uploadChunks] writes after chunk [i] went through. *)
Definition progressed (r : Render) (i : nat) (uploadedBytes : Z) (elapsed : num)
           (prev : UploadProgress) : UploadProgress :=
  let speed_ := JsNum.div (JsNum.of_Z uploadedBytes) elapsed in
  let remaining_ :=
    JsNum.div (JsNum.of_Z (total (uploadProgress (snap r)) - uploadedBytes)) speed_ in
  {| total := total prev;
     uploaded_bytes := uploadedBytes;
     percentage :=
       JsNum.mul (JsNum.div (JsNum.of_Z uploadedBytes) (JsNum.of_Z (total prev)))
                 (JsNum.of_Z 100);
     speed := speed_;
     remaining := remaining_;
     chunks := mark i true (chunks prev);
     status := status prev;
     error_message := error_message prev |}.

(** One turn of the [for] loop: the [try]/[catch] around chunk [i].  The
    result is the new value of [uploadedBytes]. *)
Definition upload_step (r : Render) (startTime : Z) (i : nat) (uploadedBytes : Z)
           (c : UploadChunk) : M Z :=
  try_catch
    (uploadChunk r c ;;
     let uploadedBytes' := uploadedBytes + blob_size (chunk c) in
     t <- date_now ;;
     let elapsed := JsNum.div (JsNum.of_Z (t - startTime)) (JsNum.of_Z 1000) in
     setUploadProgress (progressed r i uploadedBytes' elapsed) ;;
     ret uploadedBytes')
    (fun e =>
       if enableResume (props r) then
         setUploadProgress (fun prev => with_chunks (mark i false (chunks prev)) prev) ;;
         ret uploadedBytes
       else throw e).

Fixpoint for_chunks (r : Render) (startTime : Z) (i : nat) (uploadedBytes : Z)
         (cs : list UploadChunk) : M unit :=
  match cs with
  | [] => ret tt
  | c :: rest =>
      uploadedBytes' <- upload_step r startTime i uploadedBytes c ;;
      for_chunks r startTime (S i) uploadedBytes' rest
  end.

Definition uploadChunks (r : Render) : M unit :=
  let cs := chunks (uploadProgress (snap r)) in
  if Nat.eqb (List.length cs) 0 then ret tt
  else
    startTime <- date_now ;;
    for_chunks r startTime 0 0 cs.

Definition resetForm : M unit :=
  setVideoFile None ;;
  setVideoMetadata None ;;
  setTitle "" ;;
  setDescription "" ;;
  setPosition 0 ;;
  setTags [] ;;
  setDifficulty beginner ;;
  setIsPreview false ;;
  setEnableComments true ;;
  setEnableDownloads false ;;
  setSelectedQuality "auto" ;;
  setSelectedFormat "mp4" ;;
  setEnableWatermark false ;;
  setEnableSubtitles false ;;
  setPrivacy public ;;
  setUploadProgress (fun _ => idle_progress) ;;
  setUploadId None ;;
  setUploadUrl None ;;
  setUploadPreset None ;;
  setCloudName None.

Definition complete_request (r : Render) : Request :=
  ReqComplete (uploadId (session (snap r))) (courseId (props r))
              (form (snap r)) (settings (snap r)).

Definition completeUpload (r : Render) : M unit :=
  if (negb (JsString.truthy (uploadId (session (snap r))))
      || negb (JsString.truthy (cloudName (session (snap r)))))%bool
  then ret tt
  else
    try_catch
      (response <- fetch (complete_request r) ;;
       if negb (response_ok response) then
         throw {| message := "Failed to complete upload" |}
       else
         data <- json response ;;
         setUploadProgress (fun prev => with_status completed (error_message prev) prev) ;;
         toast ToastUploadSuccessful ;;
         (if onSuccess (props r) then emit (EvOnSuccess (j_video_url data)) else ret tt) ;;
         resetForm ;;
         setOpen false)
      (fun _ =>
         setUploadProgress (with_status error (Some "Failed to complete upload"%string)) ;;
         toast ToastCompleteFailed).

Definition handleUpload (fuel : nat) (r : Render) : M unit :=
  match videoFile (snap r) with
  | None => toast ToastNoFile
  | Some _ =>
      if JsString.blank (title (form (snap r))) then toast ToastTitleRequired
      else
        try_catch
          (_ <- initializeUpload fuel r ;;
           uploadChunks r ;;
           completeUpload r)
          (fun e => setUploadProgress (with_status error (Some (message e))))
  end.

(** The Cancel button: [onClick={() => setOpen(false)}]. *)
Definition cancelClick : M unit := setOpen false.

(** The X button next to the file name. *)
Definition clearFileClick : M unit :=
  setVideoFile None ;;
  setVideoMetadata None.

End Component.

(** * Properties *)

(** ** Chunk partitioning *)

(** [ceil(a / b)] for positive [b]. *)
Definition ceil_div (a b : Z) : Z := (a + b - 1) / b.

Lemma ceil_div_bounds a b :
  0 < b -> (ceil_div a b - 1) * b < a <= ceil_div a b * b.
Proof.
  intros Hb. unfold ceil_div.
  pose proof (Z.div_mod (a + b - 1) b ltac:(lia)) as Hdm.
  pose proof (Z.mod_pos_bound (a + b - 1) b Hb) as Hm.
  nia.
Qed.

Lemma ceil_div_unique a b n :
  0 < b -> (n - 1) * b < a <= n * b -> ceil_div a b = n.
Proof.
  intros Hb Hn. pose proof (ceil_div_bounds a b Hb) as Hc. nia.
Qed.

(** The chunks [cs] tile the byte range [lo, hi): each starts where the one
    before ended, none is empty, and each blob is the slice its bounds name. *)
Inductive tiles : Z -> Z -> list UploadChunk -> Prop :=
| tiles_nil lo : tiles lo lo []
| tiles_cons lo hi c cs :
    start c = lo ->
    lo < end_ c ->
    chunk c = {| blob_off := start c; blob_size := end_ c - start c |} ->
    tiles (end_ c) hi cs ->
    tiles lo hi (c :: cs).

(** The bytes of a blob, given the bytes of the file. *)
Definition blob_bytes {A} (data : list A) (b : Blob) : list A :=
  firstn (Z.to_nat (blob_size b)) (skipn (Z.to_nat (blob_off b)) data).

Lemma slice_inside f s e :
  0 <= s -> s <= e -> e <= size f ->
  slice f s e = {| blob_off := s; blob_size := e - s |}.
Proof.
  intros Hs Hse He. unfold slice.
  destruct (Z.ltb_spec s 0); [lia|].
  destruct (Z.ltb_spec e 0); [lia|].
  f_equal; lia.
Qed.

Lemma tiles_le lo hi cs : tiles lo hi cs -> lo <= hi.
Proof. induction 1; lia. Qed.

Lemma firstn_skipn_split {A} (l : list A) (a b : nat) :
  firstn a l ++ firstn b (skipn a l) = firstn (a + b) l.
Proof.
  revert l; induction a as [|a IH]; intros l; simpl.
  - reflexivity.
  - destruct l as [|x l]; simpl.
    + now rewrite firstn_nil.
    + now rewrite IH.
Qed.

(** Tiling chunks carry every byte of their range once, in order. *)
Lemma tiles_bytes {A} (data : list A) lo hi cs :
  tiles lo hi cs -> 0 <= lo ->
  List.concat (map (fun c => blob_bytes data (chunk c)) cs)
  = firstn (Z.to_nat (hi - lo)) (skipn (Z.to_nat lo) data).
Proof.
  induction 1 as [lo|lo hi c cs Hs Hlt Hc Ht IH]; intros Hlo.
  - now rewrite Z.sub_diag.
  - simpl. rewrite IH by lia. rewrite Hc. unfold blob_bytes; simpl.
    pose proof (tiles_le _ _ _ Ht) as Hle.
    subst lo.
    replace (Z.to_nat (end_ c)) with (Z.to_nat (end_ c - start c) + Z.to_nat (start c))%nat by lia.
    rewrite <- skipn_skipn, firstn_skipn_split. f_equal. lia.
Qed.

(** What the loop builds from position [s] and index [k], when [fuel] covers
    the remaining iterations. *)
Lemma create_chunks_spec f c :
  0 < c ->
  forall fuel s k,
    0 <= s -> size f - s <= Z.of_nat fuel * c ->
    exists cs,
      create_chunks fuel f c s k = Some cs
      /\ tiles s (Z.max s (size f)) cs
      /\ Z.of_nat (List.length cs) = ceil_div (Z.max 0 (size f - s)) c
      /\ forall i x, nth_error cs i = Some x ->
           index x = k + Z.of_nat i
           /\ start x = s + Z.of_nat i * c
           /\ start x < size f
           /\ end_ x = Z.min (s + (Z.of_nat i + 1) * c) (size f)
           /\ uploaded x = false.
Proof.
  intros Hc. induction fuel as [|fuel IH]; intros s k Hs Hfuel.
  - simpl. destruct (Z.ltb_spec s (size f)); [lia|].
    exists []. split; [reflexivity|]. split; [|split].
    + rewrite Z.max_l by lia. constructor.
    + simpl. symmetry. apply ceil_div_unique; lia.
    + intros [|i] x Hx; discriminate.
  - simpl. destruct (Z.ltb_spec s (size f)) as [Hlt|Hge].
    + set (e := Z.min (s + c) (size f)).
      assert (He : s < e <= size f) by (unfold e; lia).
      destruct (IH e (k + 1)) as (cs & Hcs & Ht & Hlen & Hnth);
        [lia | unfold e; lia |].
      rewrite Hcs. simpl. eexists; split; [reflexivity|]. split; [|split].
      * rewrite Z.max_r in * by lia.
        apply tiles_cons; simpl; try lia; [apply slice_inside; lia | exact Ht].
      * simpl List.length. rewrite Nat2Z.inj_succ, Hlen.
        symmetry. apply ceil_div_unique; [lia|].
        destruct (Z.le_gt_cases (size f) (s + c)) as [Hlast|Hmore].
        -- replace (Z.max 0 (size f - e)) with 0 by (unfold e; lia).
           rewrite (ceil_div_unique 0 c 0) by lia. lia.
        -- pose proof (ceil_div_bounds (Z.max 0 (size f - e)) c Hc) as Hb.
           replace (Z.max 0 (size f - e)) with (size f - s - c) in * by (unfold e; lia).
           lia.
      * intros [|i] x Hx; simpl in Hx.
        -- injection Hx as <-. cbn [index start end_ uploaded]. repeat split; unfold e; lia.
        -- apply Hnth in Hx. destruct Hx as (Hi & Hst & Hin & Hen & Hup).
           assert (Hpos : 0 <= Z.of_nat i * c) by nia.
           assert (Hec : e = s + c) by lia.
           rewrite Hec in *. repeat split; try lia; exact Hup.
    + exists []. split; [reflexivity|]. split; [|split].
      * rewrite Z.max_l by lia. constructor.
      * simpl. symmetry. apply ceil_div_unique; lia.
      * intros [|i] x Hx; discriminate.
Qed.

Lemma create_chunks_more_fuel f c :
  forall fuel fuel' s k cs,
    create_chunks fuel f c s k = Some cs ->
    (fuel <= fuel')%nat ->
    create_chunks fuel' f c s k = Some cs.
Proof.
  induction fuel as [|fuel IH]; intros fuel' s k cs Hrun Hle.
  - destruct fuel'; simpl in *; destruct (s <? size f); congruence.
  - destruct fuel' as [|fuel']; [lia|].
    simpl in *. destruct (s <? size f); [|exact Hrun].
    destruct (create_chunks fuel f c (Z.min (s + c) (size f)) (k + 1)) as [rest|] eqn:Hrest;
      [|discriminate].
    rewrite (IH fuel' _ _ _ Hrest) by lia. exact Hrun.
Qed.

Lemma tiles_nth lo hi cs i x :
  tiles lo hi cs -> nth_error cs i = Some x ->
  chunk x = {| blob_off := start x; blob_size := end_ x - start x |}.
Proof.
  intros Ht; revert i; induction Ht as [|lo hi c cs Hs Hlt Hc Ht IH]; intros [|i] Hx;
    simpl in Hx; try discriminate.
  - now injection Hx as <-.
  - eauto.
Qed.

(** The store after a successful [initializeUpload]. *)
Definition initialized (d : Json) (file_size : Z) (cs : list UploadChunk) (s : Store)
  : Store :=
  set_uploadProgress
    (started file_size cs (uploadProgress s))
    (set_session {| uploadId := j_uploadId d; uploadUrl := j_uploadUrl d;
                    uploadPreset := j_uploadPreset d; cloudName := j_cloudName d |} s).

Lemma initializeUpload_ok O fuel r w f d cs :
  videoFile (snap r) = Some f ->
  net O (fetches w) = Resp true (JsonOk d) ->
  create_chunks fuel f (chunkSize (props r)) 0 0 = Some cs ->
  initializeUpload O fuel r w
  = {| out := Ret (Some d);
       final := {| store := initialized d (size f) cs (store w);
                   fetches := S (fetches w); ticks := ticks w |};
       log := [EvFetch (ReqInit (name f) (size f) (courseId (props r)))
                       (Resp true (JsonOk d));
               EvProgress (started (size f) cs (uploadProgress (store w)))] |}.
Proof.
  intros Hf Hnet Hcs. unfold initializeUpload. rewrite Hf.
  unfold try_catch, bind, fetch, createChunks. rewrite Hnet.
  cbn [response_ok negb json ret]. rewrite Hcs. reflexivity.
Qed.

Definition MiB : Z := 1024 * 1024.

(** C1. [initializeUpload] partitions a non-empty file into chunks that tile
    [0, fileSize): contiguous, none empty, none overlapping, carrying every
    byte once; there are [ceil(fileSize / chunkSize)] of them, chunk [i] has
    index [i], all but the last are [chunkSize] long and the last is
    [fileSize - chunkSize * (count - 1)] long.  A 12 MiB file cut with the
    5 MiB chunk size gives chunks of 5, 5 and 2 MiB. *)
Theorem initializeUpload_partitions :
  (forall (O : Oracle) (fuel : nat) (r : Render) (w : World) (f : File) (d : Json),
      videoFile (snap r) = Some f ->
      net O (fetches w) = Resp true (JsonOk d) ->
      0 < size f ->
      0 < chunkSize (props r) ->
      ceil_div (size f) (chunkSize (props r)) <= Z.of_nat fuel ->
      let res := initializeUpload O fuel r w in
      let cs := chunks (uploadProgress (store (final res))) in
      let count := ceil_div (size f) (chunkSize (props r)) in
      out res = Ret (Some d)
      /\ tiles 0 (size f) cs
      /\ (forall (A : Type) (data : list A),
             Z.of_nat (List.length data) = size f ->
             List.concat (map (fun c => blob_bytes data (chunk c)) cs) = data)
      /\ Z.of_nat (List.length cs) = count
      /\ (forall i c, nth_error cs i = Some c ->
             index c = Z.of_nat i /\ uploaded c = false)
      /\ (forall i c, nth_error cs i = Some c -> Z.of_nat i < count - 1 ->
             blob_size (chunk c) = chunkSize (props r))
      /\ (exists c, nth_error cs (Z.to_nat (count - 1)) = Some c
             /\ blob_size (chunk c) = size f - chunkSize (props r) * (count - 1)))
  /\
  (forall (O : Oracle) (fuel : nat) (r : Render) (w : World) (f : File) (d : Json),
      videoFile (snap r) = Some f ->
      net O (fetches w) = Resp true (JsonOk d) ->
      size f = 12 * MiB ->
      chunkSize (props r) = 5 * MiB ->
      (3 <= fuel)%nat ->
      map (fun c => blob_size (chunk c))
          (chunks (uploadProgress (store (final (initializeUpload O fuel r w)))))
      = [5 * MiB; 5 * MiB; 2 * MiB]).
Proof.
  split.
  - intros O fuel r w f d Hf Hnet Hsize Hc Hfuel res cs count.
    pose proof (ceil_div_bounds (size f) (chunkSize (props r)) Hc) as Hcount.
    fold count in Hcount, Hfuel.
    destruct (create_chunks_spec f (chunkSize (props r)) Hc fuel 0 0)
      as (l & Hl & Ht & Hlen & Hnth); [lia | nia |].
    assert (Hcs : cs = l).
    { unfold cs, res. rewrite (initializeUpload_ok O fuel r w f d l Hf Hnet Hl).
      reflexivity. }
    rewrite Z.max_r in Ht by lia.
    rewrite Z.sub_0_r, Z.max_r in Hlen by lia. fold count in Hlen.
    split; [unfold res; now rewrite (initializeUpload_ok O fuel r w f d l Hf Hnet Hl)|].
    rewrite Hcs. clear Hcs cs res.
    assert (Hblob : forall i c, nth_error l i = Some c ->
              blob_size (chunk c)
              = Z.min ((Z.of_nat i + 1) * chunkSize (props r)) (size f)
                - Z.of_nat i * chunkSize (props r)).
    { intros i c Hi. rewrite (tiles_nth _ _ _ _ _ Ht Hi). cbn [blob_size].
      apply Hnth in Hi. lia. }
    repeat split.
    + exact Ht.
    + intros A data Hdata.
      rewrite (tiles_bytes data 0 (size f) l Ht) by lia.
      rewrite Z.sub_0_r. cbn [Z.to_nat skipn].
      apply firstn_all2. lia.
    + exact Hlen.
    + apply Hnth in H. lia.
    + apply Hnth in H. tauto.
    + intros i c Hi Hlt. rewrite (Hblob i c Hi). nia.
    + assert (Hin : (Z.to_nat (count - 1) < List.length l)%nat) by lia.
      destruct (nth_error l (Z.to_nat (count - 1))) as [c|] eqn:Hlast;
        [|apply nth_error_None in Hlast; lia].
      exists c. split; [reflexivity|].
      rewrite (Hblob _ c Hlast). rewrite Z2Nat.id by lia. nia.
  - intros O fuel r w f d Hf Hnet Hsize Hc Hfuel.
    assert (Hrun : create_chunks 3 f (chunkSize (props r)) 0 0
                   = Some [ {| chunk := {| blob_off := 0; blob_size := 5 * MiB |};
                               index := 0; start := 0; end_ := 5 * MiB;
                               uploaded := false |};
                            {| chunk := {| blob_off := 5 * MiB; blob_size := 5 * MiB |};
                               index := 1; start := 5 * MiB; end_ := 10 * MiB;
                               uploaded := false |};
                            {| chunk := {| blob_off := 10 * MiB; blob_size := 2 * MiB |};
                               index := 2; start := 10 * MiB; end_ := 12 * MiB;
                               uploaded := false |} ]).
    { rewrite Hc. destruct f as [n sz ty]. cbn [size] in Hsize. subst sz.
      vm_compute. reflexivity. }
    apply (create_chunks_more_fuel _ _ _ fuel) in Hrun; [|exact Hfuel].
    rewrite (initializeUpload_ok O fuel r w f d _ Hf Hnet Hrun).
    reflexivity.
Qed.

(** ** Running the monad *)

Lemma bind_ret {A B} (m : M A) (k : A -> M B) w a :
  out (m w) = Ret a ->
  bind m k w = {| out := out (k a (final (m w)));
                  final := final (k a (final (m w)));
                  log := log (m w) ++ log (k a (final (m w))) |}.
Proof.
  intros H. unfold bind. destruct (m w) as [o w1 l1]. cbn in *. subst o.
  now destruct (k a w1).
Qed.

Lemma bind_throw {A B} (m : M A) (k : A -> M B) w e :
  out (m w) = Throw e ->
  bind m k w = {| out := Throw e; final := final (m w); log := log (m w) |}.
Proof.
  intros H. unfold bind. destruct (m w) as [o w1 l1]. cbn in *. now subst o.
Qed.

Lemma bind_diverge {A B} (m : M A) (k : A -> M B) w :
  out (m w) = Diverge ->
  bind m k w = {| out := Diverge; final := final (m w); log := log (m w) |}.
Proof.
  intros H. unfold bind. destruct (m w) as [o w1 l1]. cbn in *. now subst o.
Qed.

Lemma try_catch_throw {A} (m : M A) (h : JsError -> M A) w e :
  out (m w) = Throw e ->
  try_catch m h w = {| out := out (h e (final (m w)));
                       final := final (h e (final (m w)));
                       log := log (m w) ++ log (h e (final (m w))) |}.
Proof.
  intros H. unfold try_catch. destruct (m w) as [o w1 l1]. cbn in *. subst o.
  now destruct (h e w1).
Qed.

Lemma try_catch_ret {A} (m : M A) (h : JsError -> M A) w a :
  out (m w) = Ret a -> try_catch m h w = m w.
Proof.
  intros H. unfold try_catch. destruct (m w) as [o w1 l1]. cbn in *. now subst o.
Qed.

Lemma try_catch_diverge {A} (m : M A) (h : JsError -> M A) w :
  out (m w) = Diverge -> try_catch m h w = m w.
Proof.
  intros H. unfold try_catch. destruct (m w) as [o w1 l1]. cbn in *. now subst o.
Qed.

(** ** Reading the log *)

Definition fetch_events (l : list Event) : list (Request * Response) :=
  flat_map (fun e => match e with EvFetch q a => [(q, a)] | _ => [] end) l.

Definition progress_events (l : list Event) : list UploadProgress :=
  flat_map (fun e => match e with EvProgress p => [p] | _ => [] end) l.

Definition success_calls (l : list Event) : list (option string) :=
  flat_map (fun e => match e with EvOnSuccess u => [u] | _ => [] end) l.

Lemma fetch_events_app l1 l2 :
  fetch_events (l1 ++ l2) = fetch_events l1 ++ fetch_events l2.
Proof. apply flat_map_app. Qed.

Lemma progress_events_app l1 l2 :
  progress_events (l1 ++ l2) = progress_events l1 ++ progress_events l2.
Proof. apply flat_map_app. Qed.

Lemma success_calls_app l1 l2 :
  success_calls (l1 ++ l2) = success_calls l1 ++ success_calls l2.
Proof. apply flat_map_app. Qed.

(** ** One chunk transfer *)

(** The transfer went through: a 2xx answer whose body parses. *)
Definition chunk_ok (resp : Response) : bool :=
  match resp with
  | Resp true (JsonOk _) => true
  | _ => false
  end.

(** What [uploadChunk] throws on an answer that is not [chunk_ok]. *)
Definition chunk_error (c : UploadChunk) (resp : Response) : JsError :=
  match resp with
  | NetFail msg => {| message := msg |}
  | Resp true (JsonBad msg) => {| message := msg |}
  | _ => {| message := ("Failed to upload chunk " ++ toString (index c))%string |}
  end.

Definition sent (w : World) : World :=
  {| store := store w; fetches := S (fetches w); ticks := ticks w |}.

Definition write_progress (p : UploadProgress) (w : World) : World :=
  {| store := set_uploadProgress p (store w); fetches := fetches w; ticks := ticks w |}.

Lemma uploadChunk_ready O r c w :
  session_ready (session (snap r)) = true ->
  uploadChunk O r c w
  = {| out := if chunk_ok (net O (fetches w)) then Ret tt
              else Throw (chunk_error c (net O (fetches w)));
       final := sent w;
       log := [EvFetch (chunk_request r c) (net O (fetches w))] |}.
Proof.
  intros Hready. unfold uploadChunk. rewrite Hready. cbn [negb].
  unfold bind, fetch. cbn [out final log].
  destruct (net O (fetches w)) as [msg|[|] [d|msg]]; reflexivity.
Qed.

Lemma uploadChunk_not_ready O r c w :
  session_ready (session (snap r)) = false ->
  uploadChunk O r c w
  = {| out := Throw {| message := "Upload not initialized" |}; final := w; log := [] |}.
Proof. intros Hready. unfold uploadChunk. now rewrite Hready. Qed.

Definition elapsed_seconds (O : Oracle) (startTime : Z) (w : World) : num :=
  JsNum.div (JsNum.of_Z (now O (ticks w) - startTime)) (JsNum.of_Z 1000).

Definition ticked (w : World) : World :=
  {| store := store w; fetches := fetches w; ticks := S (ticks w) |}.

(** A chunk that goes through: one request, one progress update. *)
Lemma upload_step_success O r startTime i ub c w :
  session_ready (session (snap r)) = true ->
  chunk_ok (net O (fetches w)) = true ->
  let p := progressed r i (ub + blob_size (chunk c)) (elapsed_seconds O startTime w)
                      (uploadProgress (store w)) in
  upload_step O r startTime i ub c w
  = {| out := Ret (ub + blob_size (chunk c));
       final := write_progress p (ticked (sent w));
       log := [EvFetch (chunk_request r c) (net O (fetches w)); EvProgress p] |}.
Proof.
  intros Hready Hok p. unfold upload_step, try_catch, bind.
  rewrite (uploadChunk_ready O r c w Hready), Hok. reflexivity.
Qed.

(** A chunk that fails with resumability on: marked, then skipped. *)
Lemma upload_step_skip O r startTime i ub c w :
  session_ready (session (snap r)) = true ->
  chunk_ok (net O (fetches w)) = false ->
  enableResume (props r) = true ->
  let p := with_chunks (mark i false (chunks (uploadProgress (store w))))
                       (uploadProgress (store w)) in
  upload_step O r startTime i ub c w
  = {| out := Ret ub;
       final := write_progress p (sent w);
       log := [EvFetch (chunk_request r c) (net O (fetches w)); EvProgress p] |}.
Proof.
  intros Hready Hok Hresume p. unfold upload_step, try_catch, bind.
  rewrite (uploadChunk_ready O r c w Hready), Hok. cbn [out final log].
  rewrite Hresume. reflexivity.
Qed.

(** A chunk that fails with resumability off: the error leaves the loop. *)
Lemma upload_step_abort O r startTime i ub c w :
  session_ready (session (snap r)) = true ->
  chunk_ok (net O (fetches w)) = false ->
  enableResume (props r) = false ->
  upload_step O r startTime i ub c w
  = {| out := Throw (chunk_error c (net O (fetches w)));
       final := sent w;
       log := [EvFetch (chunk_request r c) (net O (fetches w))] |}.
Proof.
  intros Hready Hok Hresume. unfold upload_step, try_catch, bind.
  rewrite (uploadChunk_ready O r c w Hready), Hok. cbn [out final log].
  rewrite Hresume. reflexivity.
Qed.

(** ** The transfer loop *)

Lemma nth_error_mapi_from {A B} (f : nat -> A -> B) l k j :
  nth_error (mapi_from k f l) j = option_map (f (k + j)%nat) (nth_error l j).
Proof.
  revert k j; induction l as [|x l IH]; intros k [|j]; simpl; try reflexivity.
  - now rewrite Nat.add_0_r.
  - rewrite IH. now rewrite Nat.add_succ_r.
Qed.

Lemma mapi_from_ext {A B} (f g : nat -> A -> B) l k :
  (forall j x, f j x = g j x) -> mapi_from k f l = mapi_from k g l.
Proof.
  intros Hfg; revert k; induction l as [|x l IH]; intros k; simpl; [reflexivity|].
  now rewrite Hfg, IH.
Qed.

Lemma mapi_from_shift {A B} (f : nat -> A -> B) l k :
  mapi_from (S k) f l = mapi_from k (fun j => f (S j)) l.
Proof.
  revert k; induction l as [|x l IH]; intros k; simpl; [reflexivity|].
  now rewrite IH.
Qed.

Lemma nth_error_mark i b cs j :
  nth_error (mark i b cs) j
  = option_map (fun c => if Nat.eqb j i then set_uploaded b c else c) (nth_error cs j).
Proof. unfold mark. now rewrite nth_error_mapi_from. Qed.

(** The requests the loop makes for the chunks [cs], when the first of them
    is the [n]-th request overall. *)
Definition planned (O : Oracle) (r : Render) (n : nat) (cs : list UploadChunk)
  : list (Request * Response) :=
  mapi_from 0 (fun k c => (chunk_request r c, net O (n + k)%nat)) cs.

Lemma planned_cons O r n c cs :
  planned O r n (c :: cs) = (chunk_request r c, net O n) :: planned O r (S n) cs.
Proof.
  unfold planned. simpl. rewrite Nat.add_0_r. f_equal.
  rewrite mapi_from_shift. apply mapi_from_ext.
  intros j x. now rewrite Nat.add_succ_r.
Qed.

(** Position [j] is one of the [n] positions from [i] on. *)
Definition in_range (i n j : nat) : bool :=
  (Nat.leb i j && Nat.ltb j (i + n))%bool.

Lemma in_range_0 i j : in_range i 0 j = false.
Proof.
  unfold in_range. rewrite Nat.add_0_r.
  destruct (Nat.leb_spec i j); [|reflexivity].
  cbn [andb]. apply Nat.ltb_ge. lia.
Qed.

Lemma in_range_S i n j :
  in_range i (S n) j = (Nat.eqb j i || in_range (S i) n j)%bool.
Proof.
  unfold in_range.
  destruct (Nat.eqb_spec j i) as [->|Hne]; cbn [orb].
  - rewrite Nat.leb_refl. cbn [andb]. apply Nat.ltb_lt. lia.
  - destruct (Nat.leb_spec i j), (Nat.leb_spec (S i) j); try lia; cbn [andb];
      try reflexivity.
    destruct (Nat.ltb_spec j (i + S n)), (Nat.ltb_spec j (S i + n)); try lia;
      reflexivity.
Qed.

Lemma in_range_from_0 n j : (j < n)%nat -> in_range 0 n j = true.
Proof.
  intros H. unfold in_range. cbn [Nat.leb andb Nat.add]. now apply Nat.ltb_lt.
Qed.

Section Loop.

Variable O : Oracle.
Variable r : Render.
Hypothesis Hready : session_ready (session (snap r)) = true.

(** With resumability on, a turn of the loop always comes back, having
    made one request and recorded whether the chunk went through. *)
Lemma upload_step_resume startTime i ub c w :
  enableResume (props r) = true ->
  let res := upload_step O r startTime i ub c w in
  (exists ub', out res = Ret ub')
  /\ fetches (final res) = S (fetches w)
  /\ fetch_events (log res) = [(chunk_request r c, net O (fetches w))]
  /\ chunks (uploadProgress (store (final res)))
     = mark i (chunk_ok (net O (fetches w))) (chunks (uploadProgress (store w))).
Proof.
  intros Hresume res. unfold res.
  destruct (chunk_ok (net O (fetches w))) eqn:Hok.
  - rewrite (upload_step_success O r startTime i ub c w Hready Hok).
    cbn. eauto.
  - rewrite (upload_step_skip O r startTime i ub c w Hready Hok Hresume).
    cbn. eauto.
Qed.

Lemma for_chunks_resume startTime :
  enableResume (props r) = true ->
  forall cs i ub w,
    let res := for_chunks O r startTime i ub cs w in
    out res = Ret tt
    /\ fetches (final res) = (fetches w + List.length cs)%nat
    /\ fetch_events (log res) = planned O r (fetches w) cs
    /\ forall j,
         nth_error (chunks (uploadProgress (store (final res)))) j
         = option_map
             (fun x => if in_range i (List.length cs) j
                       then set_uploaded (chunk_ok (net O (fetches w + (j - i))%nat)) x
                       else x)
             (nth_error (chunks (uploadProgress (store w))) j).
Proof.
  intros Hresume. induction cs as [|c cs IH]; intros i ub w res.
  - unfold res. cbn [for_chunks ret out final log List.length fetch_events flat_map].
    repeat split; try lia.
    intros j. rewrite in_range_0. now destruct (nth_error _ j).
  - destruct (upload_step_resume startTime i ub c w Hresume)
      as ((ub' & Hout) & Hn & Hev & Hch).
    unfold res. cbn [for_chunks]. rewrite (bind_ret _ _ _ _ Hout). cbn [out final log].
    set (w1 := final (upload_step O r startTime i ub c w)) in *.
    destruct (IH (S i) ub' w1) as (Hout2 & Hn2 & Hev2 & Hch2).
    repeat split.
    + exact Hout2.
    + rewrite Hn2, Hn. cbn [List.length]. lia.
    + rewrite fetch_events_app, Hev, Hev2, Hn, planned_cons. reflexivity.
    + intros j. rewrite Hch2, Hch, nth_error_mark, Hn.
      destruct (nth_error (chunks (uploadProgress (store w))) j) as [x|];
        [|reflexivity].
      cbn [option_map List.length]. f_equal. rewrite in_range_S.
      destruct (Nat.eqb_spec j i) as [->|Hne]; cbn [orb].
      * rewrite Nat.sub_diag, Nat.add_0_r.
        replace (in_range (S i) (List.length cs) i) with false; [reflexivity|].
        symmetry. unfold in_range.
        replace (Nat.leb (S i) i) with false by (symmetry; apply Nat.leb_gt; lia).
        reflexivity.
      * destruct (in_range (S i) (List.length cs) j) eqn:Hin; [|reflexivity].
        unfold in_range in Hin. apply andb_true_iff in Hin as [Hle _].
        apply Nat.leb_le in Hle.
        now replace (S (fetches w) + (j - S i))%nat with (fetches w + (j - i))%nat by lia.
Qed.

(** With resumability off, the loop stops at the first chunk that fails:
    position [k] of [cs], everything before it having gone through. *)
Lemma for_chunks_abort startTime :
  enableResume (props r) = false ->
  forall k cs i ub w c,
    nth_error cs k = Some c ->
    (forall j, (j < k)%nat -> chunk_ok (net O (fetches w + j)%nat) = true) ->
    chunk_ok (net O (fetches w + k)%nat) = false ->
    let res := for_chunks O r startTime i ub cs w in
    out res = Throw (chunk_error c (net O (fetches w + k)%nat))
    /\ fetches (final res) = (fetches w + S k)%nat
    /\ fetch_events (log res) = firstn (S k) (planned O r (fetches w) cs)
    /\ status (uploadProgress (store (final res)))
       = status (uploadProgress (store w)).
Proof.
  intros Hresume. induction k as [|k IH]; intros cs i ub w c Hc Hbefore Hfail res.
  - destruct cs as [|c0 cs]; [discriminate|]. injection Hc as ->.
    rewrite Nat.add_0_r in Hfail.
    unfold res. cbn [for_chunks].
    pose proof (upload_step_abort O r startTime i ub c w Hready Hfail Hresume) as Hstep.
    rewrite (bind_throw _ _ _ (chunk_error c (net O (fetches w))))
      by now rewrite Hstep.
    rewrite Hstep. cbn [out final log sent fetches store].
    rewrite Nat.add_0_r, planned_cons. repeat split. lia.
  - destruct cs as [|c0 cs]; [discriminate|]. cbn [nth_error] in Hc.
    assert (Hok : chunk_ok (net O (fetches w)) = true).
    { rewrite <- (Nat.add_0_r (fetches w)). apply Hbefore. lia. }
    unfold res. cbn [for_chunks].
    pose proof (upload_step_success O r startTime i ub c0 w Hready Hok) as Hstep.
    cbv zeta in Hstep.
    rewrite (bind_ret _ _ _ (ub + blob_size (chunk c0))) by now rewrite Hstep.
    rewrite Hstep. cbn [out final log].
    match goal with |- context [for_chunks O r startTime (S i) ?u cs ?w1] =>
      destruct (IH cs (S i) u w1 c Hc) as (Hout & Hn & Hev & Hst)
    end.
    + intros j Hj. cbn [write_progress ticked sent fetches].
      replace (S (fetches w) + j)%nat with (fetches w + S j)%nat by lia.
      apply Hbefore. lia.
    + cbn [write_progress ticked sent fetches].
      now replace (S (fetches w) + k)%nat with (fetches w + S k)%nat by lia.
    + cbn [write_progress ticked sent fetches store] in *.
      replace (S (fetches w) + k)%nat with (fetches w + S k)%nat in * by lia.
      repeat split.
      * exact Hout.
      * rewrite Hn. lia.
      * rewrite fetch_events_app, Hev, planned_cons. reflexivity.
      * rewrite Hst. reflexivity.
Qed.

End Loop.

Lemma result_eta {A} (x : Result A) :
  {| out := out x; final := final x; log := log x |} = x.
Proof. now destruct x. Qed.

Lemma uploadChunks_empty O r w :
  chunks (uploadProgress (snap r)) = [] ->
  uploadChunks O r w = {| out := Ret tt; final := w; log := [] |}.
Proof. intros H. unfold uploadChunks. now rewrite H. Qed.

Lemma uploadChunks_run O r w :
  chunks (uploadProgress (snap r)) <> [] ->
  uploadChunks O r w
  = for_chunks O r (now O (ticks w)) 0 0 (chunks (uploadProgress (snap r))) (ticked w).
Proof.
  intros H. unfold uploadChunks.
  destruct (chunks (uploadProgress (snap r))) as [|c cs] eqn:Hcs; [congruence|].
  cbn [List.length Nat.eqb]. unfold bind, date_now. fold (ticked w).
  now destruct (for_chunks O r (now O (ticks w)) 0 0 (c :: cs) (ticked w)).
Qed.

(** The pipeline of [handleUpload], before its [catch]. *)
Definition pipeline (O : Oracle) (fuel : nat) (r : Render) : M unit :=
  _ <- initializeUpload O fuel r ;;
  uploadChunks O r ;;
  completeUpload O r.

Lemma handleUpload_run O fuel r w f :
  videoFile (snap r) = Some f ->
  JsString.blank (title (form (snap r))) = false ->
  handleUpload O fuel r w
  = try_catch (pipeline O fuel r)
              (fun e => setUploadProgress (with_status error (Some (message e)))) w.
Proof. intros Hf Ht. unfold handleUpload. now rewrite Hf, Ht. Qed.

Definition is_init_request (q : Request) : bool :=
  match q with ReqInit _ _ _ => true | _ => false end.

Definition is_chunk_request (q : Request) : bool :=
  match q with ReqChunk _ _ _ _ _ _ => true | _ => false end.

Definition is_complete_request (q : Request) : bool :=
  match q with ReqComplete _ _ _ _ => true | _ => false end.

(** [initializeUpload] talks to the session service only, and never calls
    [onSuccess]. *)
Lemma initializeUpload_log O fuel r w :
  forallb (fun qa => is_init_request (fst qa))
          (fetch_events (log (initializeUpload O fuel r w))) = true
  /\ success_calls (log (initializeUpload O fuel r w)) = [].
Proof.
  unfold initializeUpload.
  destruct (videoFile (snap r)) as [f|]; [|split; reflexivity].
  unfold try_catch, bind, fetch. cbn [out final log].
  destruct (net O (fetches w)) as [msg|[|] [d|msg]]; cbn; try (split; reflexivity).
  unfold createChunks.
  destruct (create_chunks fuel f (chunkSize (props r)) 0 0); split; reflexivity.
Qed.

Lemma planned_requests O r n cs :
  forallb (fun qa => is_chunk_request (fst qa)) (planned O r n cs) = true.
Proof.
  revert n; induction cs as [|c cs IH]; intros n; [reflexivity|].
  rewrite planned_cons. cbn. apply IH.
Qed.

Lemma forallb_firstn {A} (p : A -> bool) l n :
  forallb p l = true -> forallb p (firstn n l) = true.
Proof.
  revert n; induction l as [|x l IH]; intros [|n] H; cbn in *; try reflexivity.
  apply andb_true_iff in H as [Hx Hl]. now rewrite Hx, IH.
Qed.

Lemma no_complete_request l :
  forallb (fun qa : Request * Response =>
             (is_init_request (fst qa) || is_chunk_request (fst qa))%bool) l = true ->
  existsb (fun qa : Request * Response => is_complete_request (fst qa)) l = false.
Proof.
  induction l as [|[q a] l IH]; cbn; [reflexivity|].
  intros H. apply andb_true_iff in H as [Hq Hl]. rewrite (IH Hl).
  destruct q; cbn in *; congruence.
Qed.

Lemma forallb_weaken {A} (p q : A -> bool) l :
  (forall x, p x = true -> q x = true) ->
  forallb p l = true -> forallb q l = true.
Proof.
  intros Hpq; induction l as [|x l IH]; cbn; [reflexivity|].
  intros H. apply andb_true_iff in H as [Hx Hl]. now rewrite (Hpq x Hx), IH.
Qed.

(** C2. Chunk failure policy.  With resumability on, [uploadChunks] asks for
    every chunk exactly once, in order, whatever the answers are, and a chunk
    whose transfer returned a non-2xx status is left [uploaded = false].
    With resumability off, the first chunk whose transfer returns a non-2xx
    status ends the job: [handleUpload] stores status [error], the requests
    made are those up to and including the failed chunk, and neither a later
    chunk nor the completion request is sent. *)
Theorem chunk_failure_policy :
  (forall (O : Oracle) (r : Render) (w : World),
      session_ready (session (snap r)) = true ->
      enableResume (props r) = true ->
      let cs := chunks (uploadProgress (snap r)) in
      let res := uploadChunks O r w in
      out res = Ret tt
      /\ fetch_events (log res) = planned O r (fetches w) cs
      /\ forall k body x,
           (k < List.length cs)%nat ->
           net O (fetches w + k)%nat = Resp false body ->
           nth_error (chunks (uploadProgress (store (final res)))) k = Some x ->
           uploaded x = false)
  /\
  (forall (O : Oracle) (fuel : nat) (r : Render) (w : World) (f : File)
          (d : option Json) (k : nat) (c : UploadChunk) (body : Body),
      videoFile (snap r) = Some f ->
      JsString.blank (title (form (snap r))) = false ->
      session_ready (session (snap r)) = true ->
      enableResume (props r) = false ->
      let init := initializeUpload O fuel r w in
      let n := fetches (final init) in
      let cs := chunks (uploadProgress (snap r)) in
      out init = Ret d ->
      nth_error cs k = Some c ->
      (forall j, (j < k)%nat -> chunk_ok (net O (n + j)%nat) = true) ->
      net O (n + k)%nat = Resp false body ->
      let res := handleUpload O fuel r w in
      out res = Ret tt
      /\ status (uploadProgress (store (final res))) = error
      /\ error_message (uploadProgress (store (final res)))
         = Some ("Failed to upload chunk " ++ toString (index c))%string
      /\ fetch_events (log res)
         = fetch_events (log init) ++ firstn (S k) (planned O r n cs)
      /\ fetches (final res) = (n + S k)%nat
      /\ existsb (fun qa => is_complete_request (fst qa)) (fetch_events (log res))
         = false).
Proof.
  split.
  - intros O r w Hready Hresume cs res.
    destruct cs as [|c0 cs0] eqn:Hcs.
    + unfold res. rewrite (uploadChunks_empty O r w Hcs). cbn.
      repeat split. intros k body x Hk. cbn in Hk. lia.
    + assert (Hne : chunks (uploadProgress (snap r)) <> []) by (fold cs; congruence).
      unfold res. rewrite (uploadChunks_run O r w Hne). fold cs. rewrite Hcs.
      destruct (for_chunks_resume O r Hready (now O (ticks w)) Hresume
                  (c0 :: cs0) 0%nat 0 (ticked w)) as (Hout & Hn & Hev & Hch).
      cbn [ticked fetches] in *.
      repeat split; [exact Hout | exact Hev |].
      intros k body x Hk Hnet Hx.
      rewrite Hch in Hx. cbn [ticked store] in Hx.
      destruct (nth_error (chunks (uploadProgress (store w))) k) as [x0|];
        [|discriminate].
      cbn [option_map] in Hx. injection Hx as <-.
      rewrite (in_range_from_0 (S (List.length cs0)) k Hk), Nat.sub_0_r, Hnet.
      reflexivity.
  - intros O fuel r w f d k c body Hf Ht Hready Hresume init n cs Hinit Hc Hbefore Hfail res.
    assert (Hne : chunks (uploadProgress (snap r)) <> []).
    { fold cs. intros E. rewrite E in Hc. destruct k; discriminate. }
    assert (Hbad : chunk_ok (net O (n + k)%nat) = false) by now rewrite Hfail.
    pose proof (for_chunks_abort O r Hready (now O (ticks (final init))) Hresume
                  k (chunks (uploadProgress (snap r))) 0%nat 0 (ticked (final init))
                  c Hc Hbefore Hbad) as Hloop.
    cbv zeta in Hloop.
    rewrite <- (uploadChunks_run O r (final init) Hne) in Hloop.
    cbn [ticked fetches store] in Hloop. fold n cs in Hloop.
    destruct Hloop as (Hout & Hn & Hev & Hst).
    set (uc := uploadChunks O r (final init)) in *.
    assert (Hpipe : pipeline O fuel r w
                    = {| out := Throw (chunk_error c (net O (n + k)%nat));
                         final := final uc;
                         log := log init ++ log uc |}).
    { unfold pipeline. rewrite (bind_ret _ _ _ d Hinit). fold init.
      rewrite (bind_throw _ _ _ _ Hout). reflexivity. }
    unfold res. rewrite (handleUpload_run O fuel r w f Hf Ht).
    rewrite (try_catch_throw _ _ _ (chunk_error c (net O (n + k)%nat)))
      by now rewrite Hpipe.
    rewrite Hpipe. cbn [out final log setUploadProgress store fetches
                        set_uploadProgress uploadProgress with_status status
                        error_message].
    rewrite Hfail. cbn [chunk_error message].
    assert (Hreq : fetch_events
                     ((log init ++ log uc)
                      ++ [EvProgress
                            (with_status error
                               (Some ("Failed to upload chunk " ++ toString (index c))%string)
                               (uploadProgress (store (final uc))))])
                   = fetch_events (log init) ++ firstn (S k) (planned O r n cs)).
    { rewrite !fetch_events_app, Hev. cbn [fetch_events flat_map]. now rewrite app_nil_r. }
    split; [reflexivity|]. split; [reflexivity|]. split; [reflexivity|].
    split; [exact Hreq|]. split; [exact Hn|].
    + rewrite Hreq.
      apply no_complete_request. rewrite forallb_app. apply andb_true_iff. split.
      * apply (forallb_weaken (fun qa => is_init_request (fst qa))).
        -- intros x Hx. now rewrite Hx.
        -- apply initializeUpload_log.
      * apply forallb_firstn.
        apply (forallb_weaken (fun qa => is_chunk_request (fst qa))).
        -- intros x Hx. rewrite Hx. apply orb_true_r.
        -- apply planned_requests.
Qed.

(** ** A worked job: a 12 MiB lecture, default chunk size *)

Module Scenario.

Definition lecture : File :=
  {| name := "lecture.mp4"; size := 12 * MiB; type := "video/mp4" |}.

Definition answer : Json :=
  {| j_uploadId := Some "upload-1"%string;
     j_uploadUrl := Some "https://upload.example/video"%string;
     j_uploadPreset := Some "course-videos"%string;
     j_cloudName := Some "edulearn"%string;
     j_video_url := Some "https://cdn.example/lecture.mp4"%string |}.

(** Every request answered 200, except the [bad]-th, answered with a
    non-2xx status; the clock advances one second per reading. *)
Definition server (bad : option nat) : Oracle :=
  {| net := fun n =>
              match bad with
              | Some b => if Nat.eqb n b then Resp false (JsonBad "Internal Server Error")
                          else Resp true (JsonOk answer)
              | None => Resp true (JsonOk answer)
              end;
     now := fun n => 1000 * Z.of_nat n;
     decode := fun _ => None |}.

Definition props_with (resume : bool) : Props :=
  {| courseId := "course-1"; onSuccess := true;
     maxFileSize := DEFAULT_MAX_FILE_SIZE; allowedFormats := SUPPORTED_FORMATS;
     chunkSize := DEFAULT_CHUNK_SIZE; enableResume := resume |}.

(** The state once the lecture is selected and titled. *)
Definition selected : Store :=
  set_form (with_title "lecture" default_form)
           (set_videoFile (Some lecture) (set_open true default_store)).

Definition at_start (s : Store) : World :=
  {| store := s; fetches := 0; ticks := 0 |}.

(** The state once [initializeUpload] has run on it. *)
Definition ready : Store :=
  Eval vm_compute in
    store (final (initializeUpload (server None) 3
                    {| props := props_with true; snap := selected |}
                    (at_start selected))).

Definition render_of (resume : bool) (s : Store) : Render :=
  {| props := props_with resume; snap := s |}.

End Scenario.

Lemma initializeUpload_partitions_witness :
  let res := initializeUpload (Scenario.server None) 3
               (Scenario.render_of true Scenario.selected)
               (Scenario.at_start Scenario.selected) in
  out res = Ret (Some Scenario.answer)
  /\ Z.of_nat (List.length (chunks (uploadProgress (store (final res))))) = 3.
Proof.
  pose proof (proj1 initializeUpload_partitions (Scenario.server None) 3%nat
                (Scenario.render_of true Scenario.selected)
                (Scenario.at_start Scenario.selected)
                Scenario.lecture Scenario.answer
                eq_refl eq_refl eq_refl eq_refl) as H.
  cbv zeta in H.
  destruct H as (Hout & _ & _ & Hlen & _).
  - vm_compute. discriminate.
  - split; [exact Hout | exact Hlen].
Defined.

Lemma chunk_failure_policy_witness :
  (let res := uploadChunks (Scenario.server (Some 1%nat))
                (Scenario.render_of true Scenario.ready)
                (Scenario.at_start Scenario.ready) in
   out res = Ret tt
   /\ List.length (fetch_events (log res)) = 3%nat
   /\ map uploaded (chunks (uploadProgress (store (final res)))) = [true; false; true])
  /\
  (let res := handleUpload (Scenario.server (Some 2%nat)) 3
                (Scenario.render_of false Scenario.ready)
                (Scenario.at_start Scenario.ready) in
   status (uploadProgress (store (final res))) = error
   /\ List.length (fetch_events (log res)) = 3%nat).
Proof.
  split.
  - pose proof (proj1 chunk_failure_policy (Scenario.server (Some 1%nat))
                  (Scenario.render_of true Scenario.ready)
                  (Scenario.at_start Scenario.ready) eq_refl eq_refl) as H.
    cbv zeta in H. destruct H as (Hout & Hev & _).
    split; [exact Hout|]. split; [rewrite Hev; reflexivity | reflexivity].
  - pose proof (proj2 chunk_failure_policy (Scenario.server (Some 2%nat)) 3%nat
                  (Scenario.render_of false Scenario.ready)
                  (Scenario.at_start Scenario.ready)
                  Scenario.lecture (Some Scenario.answer) 1%nat
                  {| chunk := {| blob_off := 5 * MiB; blob_size := 5 * MiB |};
                     index := 1; start := 5 * MiB; end_ := 10 * MiB;
                     uploaded := false |}
                  (JsonBad "Internal Server Error")
                  eq_refl eq_refl eq_refl eq_refl eq_refl eq_refl) as H.
    cbv zeta in H. destruct H as (_ & Hst & _ & Hev & _).
    + intros [|j] Hj; [reflexivity | lia].
    + reflexivity.
    + split; [exact Hst | rewrite Hev; reflexivity].
Defined.

(** ** The completion handshake *)

Definition handshake_ready (r : Render) : bool :=
  (JsString.truthy (uploadId (session (snap r)))
   && JsString.truthy (cloudName (session (snap r))))%bool.

Lemma completeUpload_not_ready O r w :
  handshake_ready r = false ->
  completeUpload O r w = {| out := Ret tt; final := w; log := [] |}.
Proof.
  unfold handshake_ready, completeUpload. intros H.
  destruct (JsString.truthy (uploadId (session (snap r))));
    destruct (JsString.truthy (cloudName (session (snap r))));
    try discriminate; reflexivity.
Qed.

Definition complete_failed (p : UploadProgress) : UploadProgress :=
  with_status error (Some "Failed to complete upload"%string) p.

(** Any answer but a 2xx with a readable body ends in the [catch]. *)
Lemma completeUpload_failed O r w :
  handshake_ready r = true ->
  chunk_ok (net O (fetches w)) = false ->
  completeUpload O r w
  = {| out := Ret tt;
       final := write_progress (complete_failed (uploadProgress (store w))) (sent w);
       log := [EvFetch (complete_request r) (net O (fetches w));
               EvProgress (complete_failed (uploadProgress (store w)));
               EvToast ToastCompleteFailed] |}.
Proof.
  unfold handshake_ready, completeUpload. intros Hready Hbad.
  apply andb_true_iff in Hready as [-> ->]. cbn [negb orb].
  unfold try_catch, bind, fetch. cbn [out final log].
  destruct (net O (fetches w)) as [msg|[|] [d|msg]]; try discriminate; reflexivity.
Qed.

Definition closed (w : World) : World :=
  {| store := default_store; fetches := S (fetches w); ticks := ticks w |}.

Definition success_events (r : Render) (d : Json) : list Event :=
  if onSuccess (props r) then [EvOnSuccess (j_video_url d)] else [].

(** A 2xx answer with a readable body: completed, announced, reset, closed. *)
Lemma completeUpload_done O r w d :
  handshake_ready r = true ->
  net O (fetches w) = Resp true (JsonOk d) ->
  completeUpload O r w
  = {| out := Ret tt;
       final := closed w;
       log := [EvFetch (complete_request r) (Resp true (JsonOk d));
               EvProgress (with_status completed
                             (error_message (uploadProgress (store w)))
                             (uploadProgress (store w)));
               EvToast ToastUploadSuccessful]
              ++ success_events r d
              ++ [EvProgress idle_progress] |}.
Proof.
  unfold handshake_ready, completeUpload. intros Hready Hnet.
  apply andb_true_iff in Hready as [-> ->]. cbn [negb orb].
  unfold try_catch, bind, fetch. cbn [out final log]. rewrite Hnet.
  unfold success_events. destruct (onSuccess (props r)); reflexivity.
Qed.

(** [completeUpload] calls [onSuccess] at most once, with the URL of the
    answer, and only after a completion request that was answered 2xx. *)
Lemma completeUpload_success_calls O r w :
  success_calls (log (completeUpload O r w)) = []
  \/ exists d mid post,
       success_calls (log (completeUpload O r w)) = [j_video_url d]
       /\ out (completeUpload O r w) = Ret tt
       /\ log (completeUpload O r w)
          = EvFetch (complete_request r) (Resp true (JsonOk d))
              :: mid ++ EvOnSuccess (j_video_url d) :: post.
Proof.
  destruct (handshake_ready r) eqn:Hready.
  - destruct (chunk_ok (net O (fetches w))) eqn:Hok.
    + destruct (net O (fetches w)) as [msg|[|] [d|msg]] eqn:Hnet; try discriminate.
      rewrite (completeUpload_done O r w d Hready Hnet).
      unfold success_events. destruct (onSuccess (props r)).
      * right. exists d. eexists [_; _], [_]. cbn. repeat split.
      * now left.
    + left. now rewrite (completeUpload_failed O r w Hready Hok).
  - left. now rewrite (completeUpload_not_ready O r w Hready).
Qed.

(** Events that can occur before the completion handshake: anything but a
    completion request or a call of [onSuccess]. *)
Definition before_handshake (e : Event) : bool :=
  match e with
  | EvFetch q _ => negb (is_complete_request q)
  | EvOnSuccess _ => false
  | _ => true
  end.

Definition quiet (l : list Event) : Prop := forallb before_handshake l = true.

Lemma quiet_app l1 l2 : quiet l1 -> quiet l2 -> quiet (l1 ++ l2).
Proof. unfold quiet. intros H1 H2. now rewrite forallb_app, H1, H2. Qed.

Lemma quiet_success_calls l : quiet l -> success_calls l = [].
Proof.
  unfold quiet. induction l as [|e l IH]; [reflexivity|]. cbn [forallb].
  intros H. apply andb_true_iff in H as [He Hl].
  destruct e; cbn in *; try discriminate; now apply IH.
Qed.

Lemma quiet_no_complete l q a :
  quiet l -> In (EvFetch q a) l -> is_complete_request q = false.
Proof.
  unfold quiet. intros Hq Hin.
  pose proof (proj1 (forallb_forall _ _) Hq _ Hin) as H. cbn in H.
  now destruct (is_complete_request q).
Qed.

Lemma initializeUpload_quiet O fuel r w :
  quiet (log (initializeUpload O fuel r w)).
Proof.
  unfold quiet, initializeUpload.
  destruct (videoFile (snap r)) as [f|]; [|reflexivity].
  unfold try_catch, bind, fetch. cbn [out final log].
  destruct (net O (fetches w)) as [msg|[|] [d|msg]]; cbn; try reflexivity.
  unfold createChunks.
  destruct (create_chunks fuel f (chunkSize (props r)) 0 0); reflexivity.
Qed.

Lemma upload_step_quiet O r startTime i ub c w :
  quiet (log (upload_step O r startTime i ub c w)).
Proof.
  unfold quiet, upload_step, try_catch, bind, uploadChunk.
  destruct (session_ready (session (snap r))); cbn [negb].
  - unfold bind, fetch. cbn [out final log].
    destruct (net O (fetches w)) as [msg|[|] [d|msg]];
      destruct (enableResume (props r)); reflexivity.
  - destruct (enableResume (props r)); reflexivity.
Qed.

Lemma bind_log {A B} (m : M A) (k : A -> M B) w :
  (exists a, out (m w) = Ret a
             /\ out (bind m k w) = out (k a (final (m w)))
             /\ final (bind m k w) = final (k a (final (m w)))
             /\ log (bind m k w) = log (m w) ++ log (k a (final (m w))))
  \/ ((forall a, out (m w) <> Ret a)
      /\ (forall b, out (bind m k w) <> Ret b)
      /\ final (bind m k w) = final (m w)
      /\ log (bind m k w) = log (m w)).
Proof.
  destruct (out (m w)) as [a|e|] eqn:Hout.
  - left. exists a. rewrite (bind_ret m k w a Hout). repeat split.
  - right. rewrite (bind_throw m k w e Hout).
    repeat split; cbn; try reflexivity; intros x Hx; congruence.
  - right. rewrite (bind_diverge m k w Hout).
    repeat split; cbn; try reflexivity; intros x Hx; congruence.
Qed.

Lemma for_chunks_quiet O r startTime cs :
  forall i ub w, quiet (log (for_chunks O r startTime i ub cs w)).
Proof.
  induction cs as [|c cs IH]; intros i ub w; [reflexivity|].
  cbn [for_chunks].
  destruct (bind_log (upload_step O r startTime i ub c)
                     (fun u => for_chunks O r startTime (S i) u cs) w)
    as [(a & _ & _ & _ & Hlog)|(_ & _ & _ & Hlog)]; rewrite Hlog.
  - apply quiet_app; [apply upload_step_quiet | apply IH].
  - apply upload_step_quiet.
Qed.

Lemma uploadChunks_quiet O r w : quiet (log (uploadChunks O r w)).
Proof.
  destruct (chunks (uploadProgress (snap r))) as [|c cs] eqn:Hcs.
  - now rewrite (uploadChunks_empty O r w Hcs).
  - rewrite (uploadChunks_run O r w) by congruence. apply for_chunks_quiet.
Qed.

Lemma completeUpload_returns O r w : out (completeUpload O r w) = Ret tt.
Proof.
  destruct (handshake_ready r) eqn:Hready.
  - destruct (chunk_ok (net O (fetches w))) eqn:Hok.
    + destruct (net O (fetches w)) as [msg|[|] [d|msg]] eqn:Hnet; try discriminate.
      now rewrite (completeUpload_done O r w d Hready Hnet).
    + now rewrite (completeUpload_failed O r w Hready Hok).
  - now rewrite (completeUpload_not_ready O r w Hready).
Qed.

(** A completion request answered with a non-2xx status leaves the job in
    [error], and [onSuccess] is not called. *)
Lemma completeUpload_rejected O r w q body :
  In (EvFetch q (Resp false body)) (log (completeUpload O r w)) ->
  status (uploadProgress (store (final (completeUpload O r w)))) = error
  /\ success_calls (log (completeUpload O r w)) = [].
Proof.
  destruct (handshake_ready r) eqn:Hready.
  - destruct (chunk_ok (net O (fetches w))) eqn:Hok.
    + destruct (net O (fetches w)) as [msg|[|] [d|msg]] eqn:Hnet; try discriminate.
      rewrite (completeUpload_done O r w d Hready Hnet). cbn [log app].
      intros [H|[H|[H|H]]]; try discriminate.
      apply in_app_or in H as [H|[H|[]]]; [|discriminate].
      unfold success_events in H. destruct (onSuccess (props r)); [|destruct H].
      destruct H as [H|[]]; discriminate.
    + rewrite (completeUpload_failed O r w Hready Hok). intros _. split; reflexivity.
  - rewrite (completeUpload_not_ready O r w Hready). intros [].
Qed.

(** [handleUpload] either stops before the handshake, or ends with what
    [completeUpload] does in the state [w2] the transfer loop left. *)
Lemma handleUpload_shape O fuel r w :
  quiet (log (handleUpload O fuel r w))
  \/ exists pre w2,
       quiet pre
       /\ log (handleUpload O fuel r w) = pre ++ log (completeUpload O r w2)
       /\ final (handleUpload O fuel r w) = final (completeUpload O r w2).
Proof.
  unfold handleUpload.
  destruct (videoFile (snap r)) as [f|]; [|left; reflexivity].
  destruct (JsString.blank (title (form (snap r)))); [left; reflexivity|].
  fold (pipeline O fuel r).
  assert (Hcatch : forall l, quiet (log (pipeline O fuel r w)) ->
            (forall b, out (pipeline O fuel r w) <> Ret b) ->
            l = log (try_catch (pipeline O fuel r)
                       (fun e => setUploadProgress (with_status error (Some (message e)))) w) ->
            quiet l).
  { intros l Hq Hout ->.
    destruct (out (pipeline O fuel r w)) as [b|e|] eqn:Ho.
    - now elim (Hout b).
    - rewrite (try_catch_throw _ _ _ e Ho). cbn [log].
      apply quiet_app; [exact Hq | reflexivity].
    - rewrite (try_catch_diverge _ _ _ Ho). exact Hq. }
  unfold pipeline in *.
  destruct (bind_log (initializeUpload O fuel r)
              (fun _ => uploadChunks O r ;; completeUpload O r) w)
    as [(a & Ha & Hout1 & Hfin1 & Hlog1)|(_ & Hout1 & _ & Hlog1)].
  - set (w1 := final (initializeUpload O fuel r w)) in *.
    destruct (bind_log (uploadChunks O r) (fun _ => completeUpload O r) w1)
      as [(b & Hb & Hout2 & Hfin2 & Hlog2)|(_ & Hout2 & _ & Hlog2)].
    + right. set (w2 := final (uploadChunks O r w1)) in *.
      exists (log (initializeUpload O fuel r w) ++ log (uploadChunks O r w1)), w2.
      split; [apply quiet_app; [apply initializeUpload_quiet | apply uploadChunks_quiet]|].
      rewrite (try_catch_ret _ _ _ tt)
        by (rewrite Hout1, Hout2; apply completeUpload_returns).
      rewrite Hlog1, Hlog2, Hfin1, Hfin2, app_assoc. split; reflexivity.
    + left. eapply Hcatch; [| |reflexivity].
      * rewrite Hlog1, Hlog2.
        apply quiet_app; [apply initializeUpload_quiet | apply uploadChunks_quiet].
      * intros x. rewrite Hout1. apply Hout2.
  - left. eapply Hcatch; [| |reflexivity].
    + rewrite Hlog1. apply initializeUpload_quiet.
    + exact Hout1.
Qed.

(** C3. If the completion call is answered with a non-2xx status, the job
    ends in status [error] and [onSuccess] is not called.  [onSuccess] is
    called at most once per upload, with the video URL of the answer, and
    only after a completion request that was answered 2xx. *)
Theorem completion_handshake_outcome :
  (forall (O : Oracle) (r : Render) (w : World) (body : Body),
      handshake_ready r = true ->
      net O (fetches w) = Resp false body ->
      let res := completeUpload O r w in
      out res = Ret tt
      /\ status (uploadProgress (store (final res))) = error
      /\ success_calls (log res) = [])
  /\
  (forall (O : Oracle) (fuel : nat) (r : Render) (w : World) (q : Request) (body : Body),
      let res := handleUpload O fuel r w in
      is_complete_request q = true ->
      In (EvFetch q (Resp false body)) (log res) ->
      status (uploadProgress (store (final res))) = error
      /\ success_calls (log res) = [])
  /\
  (forall (O : Oracle) (fuel : nat) (r : Render) (w : World),
      let res := handleUpload O fuel r w in
      success_calls (log res) = []
      \/ exists d pre mid post,
           success_calls (log res) = [j_video_url d]
           /\ log res = pre ++ EvFetch (complete_request r) (Resp true (JsonOk d))
                              :: mid ++ EvOnSuccess (j_video_url d) :: post).
Proof.
  split; [|split].
  - intros O r w body Hready Hnet res. unfold res.
    rewrite (completeUpload_failed O r w Hready) by now rewrite Hnet.
    repeat split.
  - intros O fuel r w q body res Hq Hin. unfold res in *.
    destruct (handleUpload_shape O fuel r w) as [Hquiet|(pre & w2 & Hpre & Hlog & Hfin)].
    + rewrite (quiet_no_complete _ _ _ Hquiet Hin) in Hq. discriminate.
    + rewrite Hlog in Hin. apply in_app_or in Hin as [Hin|Hin].
      * rewrite (quiet_no_complete _ _ _ Hpre Hin) in Hq. discriminate.
      * destruct (completeUpload_rejected O r w2 q body Hin) as [Hst Hcalls].
        rewrite Hfin, Hlog, success_calls_app, Hcalls, (quiet_success_calls _ Hpre).
        split; [exact Hst | reflexivity].
  - intros O fuel r w res. unfold res.
    destruct (handleUpload_shape O fuel r w) as [Hquiet|(pre & w2 & Hpre & Hlog & Hfin)].
    + left. now apply quiet_success_calls.
    + rewrite Hlog, success_calls_app, (quiet_success_calls _ Hpre). cbn [app].
      destruct (completeUpload_success_calls O r w2)
        as [Hnone|(d & mid & post & Hone & _ & Hshape)].
      * now left.
      * right. exists d, pre, mid, post. rewrite Hone, Hshape. split; reflexivity.
Qed.

Lemma completion_handshake_outcome_witness :
  (let res := completeUpload (Scenario.server (Some 0%nat))
                (Scenario.render_of true Scenario.ready)
                (Scenario.at_start Scenario.ready) in
   status (uploadProgress (store (final res))) = error
   /\ success_calls (log res) = [])
  /\
  (let res := handleUpload (Scenario.server (Some 4%nat)) 3
                (Scenario.render_of true Scenario.ready)
                (Scenario.at_start Scenario.ready) in
   status (uploadProgress (store (final res))) = error
   /\ success_calls (log res) = []).
Proof.
  split.
  - pose proof (proj1 completion_handshake_outcome (Scenario.server (Some 0%nat))
                  (Scenario.render_of true Scenario.ready)
                  (Scenario.at_start Scenario.ready)
                  (JsonBad "Internal Server Error") eq_refl eq_refl) as H.
    cbv zeta in H. destruct H as (_ & Hst & Hcalls). split; assumption.
  - apply (proj1 (proj2 completion_handshake_outcome)
             (Scenario.server (Some 4%nat)) 3%nat
             (Scenario.render_of true Scenario.ready)
             (Scenario.at_start Scenario.ready)
             (complete_request (Scenario.render_of true Scenario.ready))
             (JsonBad "Internal Server Error")).
    + reflexivity.
    + vm_compute. do 8 right. left. reflexivity.
Defined.

(** ** The validator *)

Lemma includes_In x l : JsString.includes x l = true <-> In x l.
Proof.
  unfold JsString.includes. rewrite existsb_exists. split.
  - intros (y & Hy & Heq). apply String.eqb_eq in Heq. now subst.
  - intros Hin. exists x. split; [exact Hin | apply String.eqb_refl].
Qed.

Lemma is_empty_false s : s <> EmptyString -> JsString.is_empty s = false.
Proof. destruct s; [congruence | reflexivity]. Qed.

(** The file of the counterexample: an allowed extension and a small size,
    but a declared media type that is not a video. *)
Definition mislabelled : File :=
  {| name := "lecture.mp4"; size := 1024; type := "application/octet-stream" |}.

(** C4 as stated fails: size and extension alone do not make a file pass. *)
Lemma validateFile_size_and_extension_not_enough :
  ~ (forall (p : Props) (f : File) (extension : string),
        size f <= maxFileSize p ->
        extension_of f = Some extension ->
        In extension (allowedFormats p) ->
        valid (validateFile p f) = true).
Proof.
  intros H.
  specialize (H (default_props "course-1" true) mislabelled "mp4"%string).
  assert (Hv : valid (validateFile (default_props "course-1" true) mislabelled) = false)
    by reflexivity.
  rewrite H in Hv.
  - discriminate.
  - vm_compute. discriminate.
  - reflexivity.
  - cbn. tauto.
Qed.

(** C4, amended.  A file passes when its size is at most [maxFileSize], its
    lowercased extension is not empty and is in the allowed set, and its
    declared media type starts with [video/]. *)
Theorem validateFile_pass (p : Props) (f : File) (extension : string) :
  size f <= maxFileSize p ->
  extension_of f = Some extension ->
  extension <> EmptyString ->
  In extension (allowedFormats p) ->
  JsString.startsWith "video/" (type f) = true ->
  validateFile p f = {| valid := true; verror := None |}.
Proof.
  intros Hsize Hext Hne Hin Htype. unfold validateFile.
  destruct (Z.ltb_spec (maxFileSize p) (size f)); [lia|].
  rewrite Hext, (is_empty_false _ Hne), (proj2 (includes_In _ _) Hin), Htype.
  reflexivity.
Qed.

Lemma validateFile_pass_witness :
  validateFile (default_props "course-1" true) Scenario.lecture
  = {| valid := true; verror := None |}.
Proof.
  apply (validateFile_pass (default_props "course-1" true) Scenario.lecture "mp4").
  - vm_compute. discriminate.
  - reflexivity.
  - discriminate.
  - cbn. tauto.
  - reflexivity.
Defined.

(** Conversely these conditions are all needed. *)
Lemma validateFile_valid_only (p : Props) (f : File) :
  valid (validateFile p f) = true ->
  size f <= maxFileSize p
  /\ (exists extension,
         extension_of f = Some extension
         /\ extension <> EmptyString
         /\ In extension (allowedFormats p))
  /\ JsString.startsWith "video/" (type f) = true.
Proof.
  unfold validateFile.
  destruct (Z.ltb_spec (maxFileSize p) (size f)); [discriminate|].
  destruct (extension_of f) as [ext|]; [|discriminate].
  destruct (JsString.is_empty ext) eqn:He; [discriminate|].
  destruct (JsString.includes ext (allowedFormats p)) eqn:Hin; [|discriminate].
  destruct (JsString.startsWith "video/" (type f)) eqn:Ht; [|discriminate].
  intros _. repeat split; [lia|].
  exists ext. repeat split.
  - intros ->. discriminate.
  - now apply includes_In.
Qed.

(** ** Progress arithmetic *)

(** [(uploadedBytes / total) * 100] as the loop computes it. *)
Definition pct (uploadedBytes total_ : Z) : num :=
  JsNum.mul (JsNum.div (JsNum.of_Z uploadedBytes) (JsNum.of_Z total_)) (JsNum.of_Z 100).

Lemma pct_fin u t :
  0 < t -> pct u t = JsNum.Fin (inject_Z u / inject_Z t * inject_Z 100).
Proof.
  intros Ht. unfold pct, JsNum.div, JsNum.mul, JsNum.of_Z.
  destruct (Qeq_bool (inject_Z t) 0) eqn:E; [|reflexivity].
  apply Qeq_bool_iff in E. unfold Qeq, inject_Z in E. cbn in E. lia.
Qed.

Lemma ratio_le a b t :
  0 < t -> a <= b ->
  (inject_Z a / inject_Z t * inject_Z 100 <= inject_Z b / inject_Z t * inject_Z 100)%Q.
Proof.
  intros Ht Hab. destruct t as [|p|p]; try lia.
  unfold Qle, Qdiv, Qmult, Qinv, inject_Z. cbn. nia.
Qed.

Lemma ratio_full t :
  0 < t -> (inject_Z t / inject_Z t * inject_Z 100 == 100)%Q.
Proof.
  intros Ht. destruct t as [|p|p]; try lia.
  unfold Qeq, Qdiv, Qmult, Qinv, inject_Z. cbn. nia.
Qed.

Lemma ratio_zero t :
  0 < t -> (inject_Z 0 / inject_Z t * inject_Z 100 == 0)%Q.
Proof.
  intros Ht. destruct t as [|p|p]; try lia.
  unfold Qeq, Qdiv, Qmult, Qinv, inject_Z. cbn. reflexivity.
Qed.

Lemma pct_mono a b t : 0 < t -> a <= b -> JsNum.le (pct a t) (pct b t).
Proof.
  intros Ht Hab. rewrite !pct_fin by exact Ht. cbn. now apply ratio_le.
Qed.

Lemma pct_full t : 0 < t -> JsNum.eq (pct t t) (JsNum.Fin 100).
Proof. intros Ht. rewrite pct_fin by exact Ht. cbn. now apply ratio_full. Qed.

Lemma pct_lower a t : 0 < t -> 0 <= a -> JsNum.le (JsNum.Fin 0) (pct a t).
Proof.
  intros Ht Ha. rewrite pct_fin by exact Ht. cbn.
  rewrite <- (ratio_zero t Ht). now apply ratio_le.
Qed.

Lemma pct_upper a t : 0 < t -> a <= t -> JsNum.le (pct a t) (JsNum.Fin 100).
Proof.
  intros Ht Ha. rewrite pct_fin by exact Ht. cbn.
  rewrite <- (ratio_full t Ht). now apply ratio_le.
Qed.

Lemma le_trans a b c : JsNum.le a b -> JsNum.le b c -> JsNum.le a c.
Proof.
  destruct a, b, c; cbn; try tauto. apply Qle_trans.
Qed.

Lemma le_refl_finite a : JsNum.is_finite a = true -> JsNum.le a a.
Proof. destruct a; cbn; try discriminate. intros _. apply Qle_refl. Qed.

Lemma le_finite_l a b : JsNum.le a (JsNum.Fin b) -> JsNum.le (JsNum.Fin 0) a ->
  JsNum.is_finite a = true.
Proof. destruct a; cbn; tauto. Qed.

(** A value already in [0, 100] is its own clamp. *)
Lemma clamp_in_range a :
  JsNum.le (JsNum.Fin 0) a -> JsNum.le a (JsNum.Fin 100) ->
  JsNum.eq a (JsNum.clamp 0 100 a).
Proof.
  destruct a; cbn; try tauto. intros H0 H100.
  rewrite (Q.max_l q 0 H0), (Q.min_l q 100 H100). reflexivity.
Qed.

(** The bytes carried by a list of chunks. *)
Definition bytes_of (cs : list UploadChunk) : Z :=
  fold_right (fun c acc => blob_size (chunk c) + acc) 0 cs.

Lemma tiles_bytes_of lo hi cs :
  tiles lo hi cs ->
  bytes_of cs = hi - lo /\ Forall (fun c => 0 < blob_size (chunk c)) cs.
Proof.
  induction 1 as [lo|lo hi c cs Hs Hlt Hc Ht [IH1 IH2]].
  - split; [cbn; lia | constructor].
  - assert (Hsize : blob_size (chunk c) = end_ c - start c) by now rewrite Hc.
    split.
    + cbn [bytes_of fold_right]. fold (bytes_of cs). lia.
    + constructor; [lia | exact IH2].
Qed.

(** A list of numbers that never goes down, starting from [prev]. *)
Fixpoint nondecreasing (prev : num) (l : list num) : Prop :=
  match l with
  | [] => True
  | x :: l' => JsNum.le prev x /\ nondecreasing x l'
  end.

(** What one turn of the loop does to the progress, whatever the answer. *)
Lemma upload_step_cases O r startTime i ub c w :
  let res := upload_step O r startTime i ub c w in
  let prev := uploadProgress (store w) in
  (exists p,
      p = progressed r i (ub + blob_size (chunk c)) (elapsed_seconds O startTime (sent w)) prev
      /\ out res = Ret (ub + blob_size (chunk c))
      /\ progress_events (log res) = [p]
      /\ uploadProgress (store (final res)) = p)
  \/ (exists p,
         p = with_chunks (mark i false (chunks prev)) prev
         /\ out res = Ret ub
         /\ progress_events (log res) = [p]
         /\ uploadProgress (store (final res)) = p)
  \/ ((forall a, out res <> Ret a)
      /\ progress_events (log res) = []
      /\ store (final res) = store w).
Proof.
  cbv zeta. unfold upload_step, try_catch, bind, uploadChunk.
  destruct (session_ready (session (snap r))); cbn [negb].
  - unfold bind, fetch. cbn [out final log].
    destruct (net O (fetches w)) as [msg|[|] [d|msg]];
      destruct (enableResume (props r)); cbn;
      first [ left; eexists; repeat split; reflexivity
            | right; left; eexists; repeat split; reflexivity
            | right; right; repeat split; congruence ].
  - destruct (enableResume (props r)); cbn;
      first [ right; left; eexists; repeat split; reflexivity
            | right; right; repeat split; congruence ].
Qed.

Section Progress.

Variable O : Oracle.
Variable r : Render.
Variable T : Z.
Hypothesis HT : 0 < T.

(** The progress [p] belongs to a job of [T] bytes of which at most [u] have
    been counted: its percentage lies between 0 and [u / T * 100], and it is
    the clamped ratio of its own [uploaded] and [total]. *)
Definition good (u : Z) (p : UploadProgress) : Prop :=
  total p = T
  /\ JsNum.le (JsNum.Fin 0) (percentage p)
  /\ JsNum.le (percentage p) (pct u T)
  /\ JsNum.eq (percentage p)
              (JsNum.clamp 0 100 (pct (uploaded_bytes p) (total p))).

Lemma good_weaken u u' p : u <= u' -> good u p -> good u' p.
Proof.
  intros Hu (Ht & H0 & Hle & Hc). repeat split; try assumption.
  eapply le_trans; [exact Hle | now apply pct_mono].
Qed.

Lemma good_progressed i u e prev :
  total prev = T -> 0 <= u <= T ->
  good u (progressed r i u e prev).
Proof.
  intros Ht Hu. unfold good. cbn [progressed total percentage uploaded_bytes].
  rewrite Ht. fold (pct u T).
  assert (H0 : JsNum.le (JsNum.Fin 0) (pct u T)) by (apply pct_lower; lia).
  assert (H1 : JsNum.le (pct u T) (JsNum.Fin 100)) by (apply pct_upper; lia).
  repeat split; try assumption.
  - apply le_refl_finite. rewrite pct_fin by exact HT. reflexivity.
  - now apply clamp_in_range.
Qed.

Lemma for_chunks_progress startTime :
  forall cs i ub w,
    0 <= ub ->
    Forall (fun c => 0 <= blob_size (chunk c)) cs ->
    ub + bytes_of cs <= T ->
    good ub (uploadProgress (store w)) ->
    let res := for_chunks O r startTime i ub cs w in
    nondecreasing (percentage (uploadProgress (store w)))
                  (map percentage (progress_events (log res)))
    /\ Forall (good (ub + bytes_of cs)) (progress_events (log res))
    /\ good (ub + bytes_of cs) (uploadProgress (store (final res))).
Proof.
  induction cs as [|c cs IH]; intros i ub w Hub Hsizes Hsum Hgood res.
  - unfold res. cbn [for_chunks ret out final log progress_events flat_map map
                     nondecreasing bytes_of fold_right].
    rewrite Z.add_0_r. split; [exact I|]. split; [constructor | exact Hgood].
  - inversion Hsizes as [|? ? Hc Hrest]; subst. cbn [bytes_of fold_right] in *.
    fold (bytes_of cs) in *.
    assert (Hb : 0 <= bytes_of cs).
    { clear - Hrest. induction Hrest as [|x l Hx Hl IHl]; cbn; [lia|].
      fold (bytes_of l). lia. }
    unfold res. cbn [for_chunks].
    destruct (bind_log (upload_step O r startTime i ub c)
                       (fun u => for_chunks O r startTime (S i) u cs) w)
      as [(a & Ha & _ & Hfin & Hlog)|(Hno & _ & Hfin & Hlog)];
      rewrite Hlog, Hfin; clear Hlog Hfin.
    + destruct (upload_step_cases O r startTime i ub c w)
        as [(p & Hp & Hout & Hev & Hst)|[(p & Hp & Hout & Hev & Hst)|(Hout & _)]];
        [| |now elim (Hout a)];
        rewrite Hout in Ha; injection Ha as <-;
        rewrite progress_events_app, Hev; cbn [app map nondecreasing].
      * assert (Hgp : good (ub + blob_size (chunk c)) p).
        { rewrite Hp. apply good_progressed; [apply Hgood | lia]. }
        destruct (IH (S i) (ub + blob_size (chunk c))
                     (final (upload_step O r startTime i ub c w)))
          as (Hmono & Hall & Hend); try assumption; try lia.
        { now rewrite Hst. }
        rewrite Hst in Hmono.
        replace (ub + (blob_size (chunk c) + bytes_of cs))
          with (ub + blob_size (chunk c) + bytes_of cs) by lia.
        split; [split|split].
        -- eapply le_trans; [apply Hgood|].
           rewrite Hp. cbn [progressed percentage]. rewrite (proj1 Hgood).
           apply pct_mono; [exact HT | lia].
        -- exact Hmono.
        -- constructor; [|exact Hall].
           apply (good_weaken (ub + blob_size (chunk c))); [lia | exact Hgp].
        -- exact Hend.
      * assert (Hgp : good ub p).
        { rewrite Hp. exact Hgood. }
        destruct (IH (S i) ub (final (upload_step O r startTime i ub c w)))
          as (Hmono & Hall & Hend); try assumption; try lia.
        { now rewrite Hst. }
        rewrite Hst in Hmono.
        split; [split|split].
        -- rewrite Hp. cbn [with_chunks percentage].
           apply le_refl_finite.
           destruct Hgood as (_ & H0 & H1 & _).
           rewrite pct_fin in H1 by exact HT. eapply le_finite_l; eassumption.
        -- exact Hmono.
        -- constructor.
           ++ apply (good_weaken ub); [lia | exact Hgp].
           ++ eapply Forall_impl; [|exact Hall].
              intros q. apply good_weaken. lia.
        -- eapply good_weaken; [|exact Hend]. lia.
    + destruct (upload_step_cases O r startTime i ub c w)
        as [(p & _ & Hout & _)|[(p & _ & Hout & _)|(_ & Hev & Hst)]];
        try (now elim (Hno _ Hout)).
      rewrite Hev, Hst. cbn [map nondecreasing].
      split; [exact I|]. split; [constructor|].
      apply (good_weaken ub); [lia | exact Hgood].
Qed.

End Progress.

Lemma eq_trans a b c : JsNum.eq a b -> JsNum.eq b c -> JsNum.eq a c.
Proof.
  destruct a, b, c; cbn; try tauto. apply Qeq_trans.
Qed.

Lemma eq_le a b : JsNum.eq a b -> JsNum.le a b.
Proof. destruct a, b; cbn; try tauto. intros ->. apply Qle_refl. Qed.

Lemma eq_sym a b : JsNum.eq a b -> JsNum.eq b a.
Proof. destruct a, b; cbn; try tauto. apply Qeq_sym. Qed.

Lemma pct_zero t : 0 < t -> JsNum.eq (pct 0 t) (JsNum.Fin 0).
Proof. intros Ht. rewrite pct_fin by exact Ht. cbn. now apply ratio_zero. Qed.

(** A job that has just been initialised: nothing counted yet. *)
Definition fresh (p : UploadProgress) : Prop :=
  uploaded_bytes p = 0 /\ JsNum.eq (percentage p) (JsNum.Fin 0).

Lemma fresh_good T p : 0 < T -> total p = T -> fresh p -> good T 0 p.
Proof.
  intros HT Ht (Hu & Hp). unfold good. rewrite Hu, Ht.
  pose proof (pct_zero T HT) as Hz.
  repeat split.
  - apply eq_le, eq_sym, Hp.
  - apply eq_le. eapply eq_trans; [exact Hp | apply eq_sym, Hz].
  - eapply eq_trans; [exact Hp|]. eapply eq_trans; [apply eq_sym, Hz|].
    apply clamp_in_range; [apply pct_lower | apply pct_upper]; lia.
Qed.

(** When every transfer goes through, the loop counts every byte and flags
    every chunk. *)
Lemma for_chunks_all_ok O r startTime :
  session_ready (session (snap r)) = true ->
  forall cs i ub w,
    (forall j, (j < List.length cs)%nat -> chunk_ok (net O (fetches w + j)%nat) = true) ->
    let res := for_chunks O r startTime i ub cs w in
    out res = Ret tt
    /\ List.length (progress_events (log res)) = List.length cs
    /\ (cs <> [] ->
        uploaded_bytes (uploadProgress (store (final res))) = ub + bytes_of cs
        /\ percentage (uploadProgress (store (final res)))
           = pct (ub + bytes_of cs) (total (uploadProgress (store w)))
        /\ last (progress_events (log res)) idle_progress
           = uploadProgress (store (final res)))
    /\ forall j,
         nth_error (chunks (uploadProgress (store (final res)))) j
         = option_map
             (fun x => if in_range i (List.length cs) j
                       then set_uploaded true x else x)
             (nth_error (chunks (uploadProgress (store w))) j).
Proof.
  intros Hready. induction cs as [|c cs IH]; intros i ub w Hall res.
  - unfold res. cbn [for_chunks ret out final log progress_events flat_map List.length].
    split; [reflexivity|]. split; [reflexivity|]. split; [congruence|].
    intros j. rewrite in_range_0. now destruct (nth_error _ j).
  - assert (Hok : chunk_ok (net O (fetches w)) = true).
    { rewrite <- (Nat.add_0_r (fetches w)). apply Hall. cbn. lia. }
    pose proof (upload_step_success O r startTime i ub c w Hready Hok) as Hstep.
    cbv zeta in Hstep.
    unfold res. cbn [for_chunks].
    rewrite (bind_ret _ _ _ (ub + blob_size (chunk c))) by now rewrite Hstep.
    rewrite Hstep. cbn [out final log].
    set (p := progressed r i (ub + blob_size (chunk c))
                (elapsed_seconds O startTime w) (uploadProgress (store w))) in *.
    set (w1 := write_progress p (ticked (sent w))) in *.
    set (rest := for_chunks O r startTime (S i) (ub + blob_size (chunk c)) cs w1) in *.
    destruct (IH (S i) (ub + blob_size (chunk c)) w1) as (Hout & Hlen & Hlast & Hch).
    { intros j Hj. unfold w1. cbn [write_progress ticked sent fetches].
      replace (S (fetches w) + j)%nat with (fetches w + S j)%nat by lia.
      apply Hall. cbn. lia. }
    fold rest in Hout, Hlen, Hlast, Hch.
    assert (Hev : progress_events
                    ([EvFetch (chunk_request r c) (net O (fetches w)); EvProgress p]
                     ++ log rest)
                  = p :: progress_events (log rest)) by reflexivity.
    rewrite Hev. clear Hev.
    split; [exact Hout|]. split; [cbn [List.length]; now rewrite Hlen|]. split.
    + intros _. destruct cs as [|c' cs'].
      * unfold rest. cbn [for_chunks ret out final log progress_events flat_map last
                          bytes_of fold_right].
        unfold w1, p.
        cbn [write_progress store set_uploadProgress uploadProgress progressed
             uploaded_bytes percentage].
        rewrite Z.add_0_r. repeat split.
      * destruct Hlast as (Hu & Hp & Hl); [congruence|].
        rewrite Hu, Hp, <- Hl. cbn [bytes_of fold_right].
        unfold w1, p.
        cbn [write_progress store set_uploadProgress uploadProgress progressed total].
        split; [lia|]. split; [f_equal; lia|].
        destruct (progress_events (log rest)) as [|q qs] eqn:E.
        -- cbn in Hlen. discriminate.
        -- reflexivity.
    + intros j. rewrite Hch. unfold w1, p.
      cbn [write_progress store set_uploadProgress uploadProgress progressed chunks].
      rewrite nth_error_mark.
      destruct (nth_error (chunks (uploadProgress (store w))) j) as [x|];
        [|reflexivity].
      cbn [option_map List.length]. f_equal. rewrite in_range_S.
      destruct (Nat.eqb_spec j i) as [->|Hne]; cbn [orb].
      * replace (in_range (S i) (List.length cs) i) with false; [reflexivity|].
        symmetry. unfold in_range.
        replace (Nat.leb (S i) i) with false by (symmetry; apply Nat.leb_gt; lia).
        reflexivity.
      * reflexivity.
Qed.

Lemma tiles_nonempty lo hi cs : tiles lo hi cs -> lo < hi -> cs <> [].
Proof. intros Ht Hlt. destruct Ht; [lia | congruence]. Qed.

Lemma positive_sizes cs :
  Forall (fun c => 0 < blob_size (chunk c)) cs ->
  Forall (fun c => 0 <= blob_size (chunk c)) cs.
Proof. apply Forall_impl. intros c. lia. Qed.

(** C5. During [uploadChunks] on a job whose chunks tile the file, the
    percentages written to the progress state never go down, whatever the
    answers of the server are; and when every chunk goes through, the last
    percentage written is exactly 100 and every chunk is flagged uploaded. *)
Theorem progress_monotone_reaches_100 (O : Oracle) (r : Render) (w : World) :
  let T := total (uploadProgress (store w)) in
  let cs := chunks (uploadProgress (snap r)) in
  let res := uploadChunks O r w in
  0 < T ->
  tiles 0 T cs ->
  fresh (uploadProgress (store w)) ->
  nondecreasing (percentage (uploadProgress (store w)))
                (map percentage (progress_events (log res)))
  /\ (session_ready (session (snap r)) = true ->
      (forall j, (j < List.length cs)%nat ->
                 chunk_ok (net O (fetches w + j)%nat) = true) ->
      out res = Ret tt
      /\ List.length (progress_events (log res)) = List.length cs
      /\ JsNum.eq (percentage (last (progress_events (log res)) idle_progress))
                  (JsNum.Fin 100)
      /\ JsNum.eq (percentage (uploadProgress (store (final res)))) (JsNum.Fin 100)
      /\ forall j x,
           nth_error (chunks (uploadProgress (store (final res)))) j = Some x ->
           (j < List.length cs)%nat ->
           uploaded x = true).
Proof.
  intros T cs res HT Htiles Hfresh.
  pose proof (tiles_nonempty _ _ _ Htiles HT) as Hne.
  destruct (tiles_bytes_of _ _ _ Htiles) as (Hbytes & Hpos).
  unfold res. rewrite (uploadChunks_run O r w Hne). fold cs.
  split.
  - destruct (for_chunks_progress O r T HT (now O (ticks w)) cs 0%nat 0 (ticked w))
      as (Hmono & _); try lia.
    + now apply positive_sizes.
    + now apply fresh_good.
    + exact Hmono.
  - intros Hready Hall.
    destruct (for_chunks_all_ok O r (now O (ticks w)) Hready cs 0%nat 0 (ticked w) Hall)
      as (Hout & Hlen & Hlast & Hch).
    destruct (Hlast Hne) as (_ & Hp & Hl).
    cbn [ticked store] in Hp. fold T in Hp.
    rewrite Hbytes, Z.sub_0_r, Z.add_0_l in Hp.
    repeat split.
    + exact Hout.
    + exact Hlen.
    + rewrite Hl, Hp. now apply pct_full.
    + rewrite Hp. now apply pct_full.
    + intros j x Hx Hj. rewrite Hch in Hx.
      destruct (nth_error (chunks (uploadProgress (store (ticked w)))) j) as [x0|];
        [|discriminate].
      cbn [option_map] in Hx. injection Hx as <-.
      rewrite (in_range_from_0 _ _ Hj). reflexivity.
Qed.

(** C6. During [uploadChunks] on a job whose chunks tile the file, every
    value written to the progress state has a percentage equal to
    [uploaded / total * 100] clamped to [0, 100], and between 0 and 100. *)
Theorem percentage_is_clamped_ratio (O : Oracle) (r : Render) (w : World) :
  let T := total (uploadProgress (store w)) in
  let cs := chunks (uploadProgress (snap r)) in
  let res := uploadChunks O r w in
  0 < T ->
  tiles 0 T cs ->
  fresh (uploadProgress (store w)) ->
  Forall (fun p =>
            JsNum.eq (percentage p)
                     (JsNum.clamp 0 100 (pct (uploaded_bytes p) (total p)))
            /\ JsNum.le (JsNum.Fin 0) (percentage p)
            /\ JsNum.le (percentage p) (JsNum.Fin 100))
         (progress_events (log res)
          ++ [uploadProgress (store w); uploadProgress (store (final res))]).
Proof.
  intros T cs res HT Htiles Hfresh.
  pose proof (tiles_nonempty _ _ _ Htiles HT) as Hne.
  destruct (tiles_bytes_of _ _ _ Htiles) as (Hbytes & Hpos).
  assert (Hin : forall u p, u <= T -> good T u p ->
            JsNum.eq (percentage p)
                     (JsNum.clamp 0 100 (pct (uploaded_bytes p) (total p)))
            /\ JsNum.le (JsNum.Fin 0) (percentage p)
            /\ JsNum.le (percentage p) (JsNum.Fin 100)).
  { intros u p Hu (Ht & H0 & Hle & Hc). repeat split; try assumption.
    eapply le_trans; [exact Hle | now apply pct_upper]. }
  unfold res. rewrite (uploadChunks_run O r w Hne). fold cs.
  destruct (for_chunks_progress O r T HT (now O (ticks w)) cs 0%nat 0 (ticked w))
    as (_ & Hall & Hend); try lia.
  - now apply positive_sizes.
  - now apply fresh_good.
  - apply Forall_app. split.
    + eapply Forall_impl; [|exact Hall]. intros p. apply Hin. lia.
    + constructor; [|constructor; [|constructor]].
      * apply (Hin 0); [lia | now apply fresh_good].
      * apply (Hin (0 + bytes_of cs)); [lia | exact Hend].
Qed.

Lemma progress_monotone_reaches_100_witness :
  let res := uploadChunks (Scenario.server None)
               (Scenario.render_of true Scenario.ready)
               (Scenario.at_start Scenario.ready) in
  nondecreasing (JsNum.of_Z 0) (map percentage (progress_events (log res)))
  /\ JsNum.eq (percentage (uploadProgress (store (final res)))) (JsNum.Fin 100).
Proof.
  pose proof (progress_monotone_reaches_100 (Scenario.server None)
                (Scenario.render_of true Scenario.ready)
                (Scenario.at_start Scenario.ready)) as H.
  cbv zeta in H. destruct H as (Hmono & Hfull).
  - reflexivity.
  - vm_compute.
    repeat (apply tiles_cons; [reflexivity | reflexivity | reflexivity |]).
    apply tiles_nil.
  - split; [reflexivity | vm_compute; reflexivity].
  - split; [exact Hmono|].
    destruct Hfull as (_ & _ & _ & H100 & _).
    + reflexivity.
    + intros j Hj. reflexivity.
    + exact H100.
Defined.

Lemma percentage_is_clamped_ratio_witness :
  let res := uploadChunks (Scenario.server (Some 1%nat))
               (Scenario.render_of true Scenario.ready)
               (Scenario.at_start Scenario.ready) in
  Forall (fun p => JsNum.le (JsNum.Fin 0) (percentage p)
                   /\ JsNum.le (percentage p) (JsNum.Fin 100))
         (progress_events (log res)).
Proof.
  pose proof (percentage_is_clamped_ratio (Scenario.server (Some 1%nat))
                (Scenario.render_of true Scenario.ready)
                (Scenario.at_start Scenario.ready)) as H.
  cbv zeta in H.
  assert (Hall := H eq_refl).
  clear H.
  assert (Htiles : tiles 0 (total (uploadProgress (store (Scenario.at_start Scenario.ready))))
                     (chunks (uploadProgress (snap (Scenario.render_of true Scenario.ready))))).
  { vm_compute.
    repeat (apply tiles_cons; [reflexivity | reflexivity | reflexivity |]).
    apply tiles_nil. }
  specialize (Hall Htiles (conj eq_refl (Qeq_refl 0))).
  apply Forall_app in Hall as [Hall _].
  eapply Forall_impl; [|exact Hall].
  intros p (_ & H0 & H1). split; assumption.
Defined.

(** ** Speed and remaining time *)

(** Dividing by zero never gives a finite number. *)
Lemma div_by_zero a b :
  JsNum.is_zero b = true -> JsNum.is_finite (JsNum.div a b) = false.
Proof.
  destruct b as [y| | |]; cbn; try discriminate. intros Hy.
  destruct a as [x| | |]; cbn; try reflexivity.
  - rewrite Hy. now destruct (x ?= 0)%Q.
  - now destruct (Qle_bool 0 y).
  - now destruct (Qle_bool 0 y).
Qed.

(** C7. After a chunk went through, the loop has added its size to
    [uploadedBytes] and written [speed = uploadedBytes / elapsedSeconds] and
    [remaining = (total - uploadedBytes) / speed]; the divisions are those of
    JavaScript, so a speed of zero gives a [remaining] that is infinite or
    [NaN], never a finite number. *)
Theorem speed_and_remaining (O : Oracle) (r : Render) (startTime : Z) (i : nat)
        (uploadedBytes : Z) (c : UploadChunk) (w : World) :
  session_ready (session (snap r)) = true ->
  chunk_ok (net O (fetches w)) = true ->
  let res := upload_step O r startTime i uploadedBytes c w in
  let p := uploadProgress (store (final res)) in
  let elapsedSeconds :=
    JsNum.div (JsNum.of_Z (now O (ticks w) - startTime)) (JsNum.of_Z 1000) in
  out res = Ret (uploadedBytes + blob_size (chunk c))
  /\ progress_events (log res) = [p]
  /\ uploaded_bytes p = uploadedBytes + blob_size (chunk c)
  /\ speed p = JsNum.div (JsNum.of_Z (uploaded_bytes p)) elapsedSeconds
  /\ remaining p
     = JsNum.div (JsNum.of_Z (total (uploadProgress (snap r)) - uploaded_bytes p))
                 (speed p)
  /\ (JsNum.is_zero (speed p) = true -> JsNum.is_finite (remaining p) = false).
Proof.
  intros Hready Hok res p elapsedSeconds.
  pose proof (upload_step_success O r startTime i uploadedBytes c w Hready Hok) as Hstep.
  cbv zeta in Hstep. unfold p, res. rewrite Hstep.
  cbn [out final log write_progress store set_uploadProgress uploadProgress
       progressed uploaded_bytes speed remaining].
  repeat split.
  apply div_by_zero.
Qed.

Lemma speed_and_remaining_witness :
  let res := upload_step (Scenario.server None)
               (Scenario.render_of true Scenario.ready) 0 0 0
               {| chunk := {| blob_off := 0; blob_size := 5 * MiB |};
                  index := 0; start := 0; end_ := 5 * MiB; uploaded := false |}
               {| store := Scenario.ready; fetches := 0; ticks := 1 |} in
  JsNum.eq (speed (uploadProgress (store (final res)))) (JsNum.of_Z (5 * MiB))
  /\ JsNum.eq (remaining (uploadProgress (store (final res)))) (JsNum.Fin (7 # 5)).
Proof.
  pose proof (speed_and_remaining (Scenario.server None)
                (Scenario.render_of true Scenario.ready) 0 0%nat 0
                {| chunk := {| blob_off := 0; blob_size := 5 * MiB |};
                   index := 0; start := 0; end_ := 5 * MiB; uploaded := false |}
                {| store := Scenario.ready; fetches := 0; ticks := 1 |}
                eq_refl eq_refl) as H.
  cbv zeta in H. destruct H as (_ & _ & _ & Hs & Hr & _).
  split.
  - rewrite Hs. vm_compute. reflexivity.
  - rewrite Hr. vm_compute. reflexivity.
Defined.

(** ** Selecting a file *)

Lemma txt_not_supported : JsString.includes "txt" SUPPORTED_FORMATS = false.
Proof. reflexivity. Qed.

(** C8. A file that fails validation is turned away on the spot:
    [handleFileSelect] only shows a toast; it makes no request and leaves the
    state, and with it the selected file, as it was.  With nothing selected
    before, a later [handleUpload] makes no request either.  A file named
    [*.txt] fails validation under the default formats. *)
Theorem validation_precedes_network :
  (forall (O : Oracle) (r : Render) (w : World) (f : File),
      valid (validateFile (props r) f) = false ->
      let res := handleFileSelect O r (Some f) w in
      out res = Ret tt
      /\ final res = w
      /\ log res = [EvToast (ToastInvalidFile (verror (validateFile (props r) f)))]
      /\ fetch_events (log res) = [])
  /\
  (forall (O : Oracle) (fuel : nat) (r r' : Render) (w : World) (f : File),
      valid (validateFile (props r) f) = false ->
      videoFile (store w) = None ->
      snap r' = store (final (handleFileSelect O r (Some f) w)) ->
      fetch_events (log (handleUpload O fuel r' (final (handleFileSelect O r (Some f) w))))
      = [])
  /\
  (forall (p : Props) (f : File),
      allowedFormats p = SUPPORTED_FORMATS ->
      extension_of f = Some "txt"%string ->
      valid (validateFile p f) = false).
Proof.
  assert (Hsel : forall O r w f,
             valid (validateFile (props r) f) = false ->
             handleFileSelect O r (Some f) w
             = {| out := Ret tt; final := w;
                  log := [EvToast (ToastInvalidFile (verror (validateFile (props r) f)))] |}).
  { intros O r w f Hv. unfold handleFileSelect. rewrite Hv. reflexivity. }
  split; [|split].
  - intros O r w f Hv res. unfold res. rewrite (Hsel O r w f Hv). repeat split.
  - intros O fuel r r' w f Hv Hnone Hsnap.
    rewrite (Hsel O r w f Hv) in *. cbn [final] in *.
    unfold handleUpload. rewrite Hsnap, Hnone. reflexivity.
  - intros p f Hp Hext. unfold validateFile.
    destruct (maxFileSize p <? size f); [reflexivity|].
    rewrite Hext, Hp. reflexivity.
Qed.

Definition notes : File :=
  {| name := "notes.txt"; size := 2048; type := "text/plain" |}.

Lemma validation_precedes_network_witness :
  fetch_events
    (log (handleFileSelect (Scenario.server None)
            (Scenario.render_of true default_store) (Some notes)
            (Scenario.at_start default_store))) = []
  /\ valid (validateFile (Scenario.props_with true) notes) = false.
Proof.
  split.
  - pose proof (proj1 validation_precedes_network (Scenario.server None)
                  (Scenario.render_of true default_store)
                  (Scenario.at_start default_store) notes eq_refl) as H.
    cbv zeta in H. destruct H as (_ & _ & _ & H). exact H.
  - apply (proj2 (proj2 validation_precedes_network)); reflexivity.
Defined.

(** ** Resetting the form *)

Lemma resetForm_store w :
  store (final (resetForm w)) = set_open (open (store w)) default_store.
Proof. reflexivity. Qed.

(** C9 as stated fails: after Cancel the form still holds what was typed. *)
Lemma cancel_keeps_the_form :
  let w := final (cancelClick (Scenario.at_start Scenario.selected)) in
  store w <> default_store
  /\ title (form (store w)) = "lecture"%string
  /\ videoFile (store w) = Some Scenario.lecture.
Proof.
  cbv zeta. repeat split. intros H.
  apply (f_equal (fun s => title (form s))) in H. discriminate H.
Qed.

(** C9, amended.  After a completion handshake that succeeded the whole
    state is back at its defaults (empty title and description, position 0,
    no tags, difficulty beginner, privacy public, quality auto, idle
    progress, no file, no session) and the dialog is closed.  The Cancel
    button only closes the dialog: the rest of the state stays as it is. *)
Theorem form_reset_postcondition :
  (forall (O : Oracle) (r : Render) (w : World) (d : Json),
      handshake_ready r = true ->
      net O (fetches w) = Resp true (JsonOk d) ->
      store (final (completeUpload O r w)) = default_store)
  /\
  (forall (w : World),
      store (final (cancelClick w)) = set_open false (store w)).
Proof.
  split.
  - intros O r w d Hready Hnet.
    now rewrite (completeUpload_done O r w d Hready Hnet).
  - reflexivity.
Qed.

Lemma form_reset_postcondition_witness :
  store (final (completeUpload (Scenario.server None)
                  (Scenario.render_of true Scenario.ready)
                  (Scenario.at_start Scenario.ready)))
  = default_store.
Proof.
  apply (proj1 form_reset_postcondition (Scenario.server None)
           (Scenario.render_of true Scenario.ready)
           (Scenario.at_start Scenario.ready) Scenario.answer);
    reflexivity.
Defined.

(** ** An empty file *)

Lemma create_chunks_empty fuel f c s k :
  size f <= s -> create_chunks fuel f c s k = Some [].
Proof.
  intros H. destruct fuel; cbn; destruct (Z.ltb_spec s (size f)); try lia; reflexivity.
Qed.

(** C10. For a file of size 0 the partitioning loop produces no chunk;
    [uploadChunks], seeing no chunk, returns at once without a request and
    without touching the progress; and [handleUpload] goes on to
    [completeUpload], which sends the completion request as soon as the
    render holds an upload id and a cloud name. *)
Theorem zero_size_file (O : Oracle) (fuel : nat) (r : Render) (w : World)
        (f : File) (d : Json) :
  videoFile (snap r) = Some f ->
  size f = 0 ->
  JsString.blank (title (form (snap r))) = false ->
  chunks (uploadProgress (snap r)) = [] ->
  net O (fetches w) = Resp true (JsonOk d) ->
  let init := initializeUpload O fuel r w in
  let transfer := uploadChunks O r (final init) in
  let complete := completeUpload O r (final init) in
  let res := handleUpload O fuel r w in
  out init = Ret (Some d)
  /\ chunks (uploadProgress (store (final init))) = []
  /\ percentage (uploadProgress (store (final init)))
     = percentage (uploadProgress (store w))
  /\ transfer = {| out := Ret tt; final := final init; log := [] |}
  /\ res = {| out := out complete; final := final complete;
              log := log init ++ log complete |}
  /\ (handshake_ready r = true ->
      fetch_events (log res)
      = [(ReqInit (name f) 0 (courseId (props r)), Resp true (JsonOk d));
         (complete_request r, net O (S (fetches w)))]).
Proof.
  intros Hf Hsize Htitle Hsnap Hnet init transfer complete res.
  assert (Hcs : create_chunks fuel f (chunkSize (props r)) 0 0 = Some [])
    by (apply create_chunks_empty; lia).
  pose proof (initializeUpload_ok O fuel r w f d [] Hf Hnet Hcs) as Hinit.
  fold init in Hinit.
  assert (Htr : transfer = {| out := Ret tt; final := final init; log := [] |})
    by apply (uploadChunks_empty O r (final init) Hsnap).
  assert (Hres : res = {| out := out complete; final := final complete;
                          log := log init ++ log complete |}).
  { unfold res. rewrite (handleUpload_run O fuel r w f Hf Htitle).
    assert (Hpipe : pipeline O fuel r w
                    = {| out := out complete; final := final complete;
                         log := log init ++ log complete |}).
    { unfold pipeline. rewrite (bind_ret _ _ _ (Some d)) by (fold init; now rewrite Hinit).
      fold init. rewrite (bind_ret _ _ _ tt) by (fold transfer; now rewrite Htr).
      fold transfer. rewrite Htr. reflexivity. }
    rewrite (try_catch_ret _ _ _ tt); [exact Hpipe|].
    rewrite Hpipe. apply completeUpload_returns. }
  repeat split.
  - now rewrite Hinit.
  - now rewrite Hinit.
  - now rewrite Hinit.
  - exact Htr.
  - exact Hres.
  - intros Hready. rewrite Hres. cbn [log]. rewrite fetch_events_app.
    unfold complete. rewrite Hinit. cbn [final log fetch_events flat_map app].
    rewrite Hsize.
    destruct (chunk_ok (net O (S (fetches w)))) eqn:Hok.
    + destruct (net O (S (fetches w))) as [msg|[|] [d'|msg]] eqn:Hnet'; try discriminate.
      rewrite (completeUpload_done O r _ d' Hready) by exact Hnet'.
      unfold success_events. now destruct (onSuccess (props r)).
    + rewrite (completeUpload_failed O r _ Hready) by exact Hok. reflexivity.
Qed.

Definition empty_file : File :=
  {| name := "empty.mp4"; size := 0; type := "video/mp4" |}.

Definition empty_selected : Store :=
  set_session {| uploadId := Some "upload-0"%string;
                 uploadUrl := Some "https://upload.example/video"%string;
                 uploadPreset := Some "course-videos"%string;
                 cloudName := Some "edulearn"%string |}
    (set_form (with_title "empty" default_form)
       (set_videoFile (Some empty_file) (set_open true default_store))).

Lemma zero_size_file_witness :
  let res := handleUpload (Scenario.server None) 0
               (Scenario.render_of true empty_selected)
               (Scenario.at_start empty_selected) in
  List.length (fetch_events (log res)) = 2%nat
  /\ chunks (uploadProgress
               (store (final (initializeUpload (Scenario.server None) 0
                                (Scenario.render_of true empty_selected)
                                (Scenario.at_start empty_selected))))) = [].
Proof.
  pose proof (zero_size_file (Scenario.server None) 0%nat
                (Scenario.render_of true empty_selected)
                (Scenario.at_start empty_selected)
                empty_file Scenario.answer
                eq_refl eq_refl eq_refl eq_refl eq_refl) as H.
  cbv zeta in H. destruct H as (_ & Hcs & _ & _ & _ & Hev).
  split; [rewrite (Hev eq_refl); reflexivity | exact Hcs].
Defined.

(** * Further properties of the component *)

(** ** validateFile *)

(** A file passes exactly when the three checks hold: size within the limit,
    a non-empty lowercased extension from the allowed list, and a declared
    media type that starts with [video/]. *)
Theorem validateFile_valid_iff (p : Props) (f : File) :
  valid (validateFile p f) = true
  <-> size f <= maxFileSize p
      /\ (exists extension,
             extension_of f = Some extension
             /\ extension <> EmptyString
             /\ In extension (allowedFormats p))
      /\ JsString.startsWith "video/" (type f) = true.
Proof.
  split.
  - apply validateFile_valid_only.
  - intros (Hsize & (ext & Hext & Hne & Hin) & Htype). unfold validateFile.
    destruct (Z.ltb_spec (maxFileSize p) (size f)); [lia|].
    rewrite Hext, (is_empty_false _ Hne), (proj2 (includes_In _ _) Hin), Htype.
    reflexivity.
Qed.

(** The checks run in a fixed order and the error names the first one that
    failed: the size (with the file size and the limit), then the extension
    (with the allowed formats), then the media type.  The result is valid
    exactly when there is no error. *)
Theorem validateFile_error_order (p : Props) (f : File) :
  (valid (validateFile p f) = true <-> verror (validateFile p f) = None)
  /\ (maxFileSize p < size f ->
      verror (validateFile p f) = Some (FileTooLarge (size f) (maxFileSize p)))
  /\ (forall a b, verror (validateFile p f) = Some (FileTooLarge a b) ->
                  a = size f /\ b = maxFileSize p /\ b < a)
  /\ (forall l, verror (validateFile p f) = Some (UnsupportedFormat l) ->
                l = allowedFormats p /\ size f <= maxFileSize p)
  /\ (verror (validateFile p f) = Some NotAVideo ->
      size f <= maxFileSize p
      /\ JsString.startsWith "video/" (type f) = false
      /\ exists extension,
           extension_of f = Some extension /\ In extension (allowedFormats p)).
Proof.
  unfold validateFile.
  destruct (Z.ltb_spec (maxFileSize p) (size f)) as [Hbig|Hok].
  - cbn. repeat split; try congruence; try discriminate; try lia.
  - destruct (extension_of f) as [ext|] eqn:Hext.
    + destruct (JsString.is_empty ext) eqn:He; cbn [orb].
      * cbn. repeat split; try congruence; try discriminate; try lia.
      * destruct (JsString.includes ext (allowedFormats p)) eqn:Hin; cbn [negb].
        -- destruct (JsString.startsWith "video/" (type f)) eqn:Ht; cbn [negb].
           ++ cbn. repeat split; try congruence; try discriminate; try lia.
           ++ cbn. repeat split; try congruence; try discriminate; try lia.
              exists ext. split; [reflexivity | now apply includes_In].
        -- cbn. repeat split; try congruence; try discriminate; try lia.
    + cbn. repeat split; try congruence; try discriminate; try lia.
Qed.

Lemma validateFile_error_order_witness :
  verror (validateFile (default_props "course-1" true)
            {| name := "huge.mp4"; size := 3 * 1024 * MiB; type := "video/mp4" |})
  = Some (FileTooLarge (3 * 1024 * MiB) DEFAULT_MAX_FILE_SIZE).
Proof.
  apply (proj1 (proj2 (validateFile_error_order (default_props "course-1" true)
            {| name := "huge.mp4"; size := 3 * 1024 * MiB; type := "video/mp4" |}))).
  reflexivity.
Defined.

(** ** handleFileSelect *)

(** Selecting a file never talks to the network and never touches the upload
    progress or the session, whatever was picked and whatever the decoder
    does. *)
Theorem handleFileSelect_is_local (O : Oracle) (r : Render) (picked : option File)
        (w : World) :
  let res := handleFileSelect O r picked w in
  out res = Ret tt
  /\ fetch_events (log res) = []
  /\ progress_events (log res) = []
  /\ fetches (final res) = fetches w
  /\ uploadProgress (store (final res)) = uploadProgress (store w)
  /\ session (store (final res)) = session (store w).
Proof.
  cbv zeta. unfold handleFileSelect.
  destruct picked as [f|]; [|repeat split].
  destruct (valid (validateFile (props r) f)); cbn [negb]; [|repeat split].
  unfold bind, try_catch, extractVideoMetadata.
  destruct (decode O f) as [md|]; repeat split.
Qed.

(** The file kept in the state is always one that passed validation: after
    [handleFileSelect] it is the file that was there before, or the picked
    file, and then that file is valid. *)
Theorem handleFileSelect_keeps_valid (O : Oracle) (r : Render) (picked : option File)
        (w : World) :
  let res := handleFileSelect O r picked w in
  videoFile (store (final res)) = videoFile (store w)
  \/ exists f, picked = Some f
               /\ valid (validateFile (props r) f) = true
               /\ videoFile (store (final res)) = Some f.
Proof.
  cbv zeta. unfold handleFileSelect.
  destruct picked as [f|]; [|now left].
  destruct (valid (validateFile (props r) f)) eqn:Hv; cbn [negb]; [|now left].
  right. exists f. split; [reflexivity|]. split; [exact Hv|].
  unfold bind, try_catch, extractVideoMetadata.
  destruct (decode O f) as [md|]; reflexivity.
Qed.

(** When the decoder fails on a valid file, the file stays selected although
    neither its metadata nor the default title were set. *)
Theorem handleFileSelect_decode_failure (O : Oracle) (r : Render) (f : File)
        (w : World) :
  valid (validateFile (props r) f) = true ->
  decode O f = None ->
  let res := handleFileSelect O r (Some f) w in
  store (final res) = set_videoFile (Some f) (store w)
  /\ log res = [EvToast ToastProcessFailed].
Proof.
  intros Hv Hd. cbv zeta. unfold handleFileSelect. rewrite Hv. cbn [negb].
  unfold bind, try_catch, extractVideoMetadata. rewrite Hd. split; reflexivity.
Qed.

Lemma handleFileSelect_decode_failure_witness :
  videoFile (store (final (handleFileSelect (Scenario.server None)
                             (Scenario.render_of true default_store)
                             (Some Scenario.lecture)
                             (Scenario.at_start default_store))))
  = Some Scenario.lecture.
Proof.
  pose proof (handleFileSelect_decode_failure (Scenario.server None)
                (Scenario.render_of true default_store) Scenario.lecture
                (Scenario.at_start default_store) eq_refl eq_refl) as H.
  cbv zeta in H. destruct H as (H & _). now rewrite H.
Defined.

(** When the decoder succeeds, the metadata is stored and the title becomes
    the file name without its extension. *)
Theorem handleFileSelect_decoded (O : Oracle) (r : Render) (f : File)
        (md : VideoMetadata) (w : World) :
  valid (validateFile (props r) f) = true ->
  decode O f = Some md ->
  let res := handleFileSelect O r (Some f) w in
  videoFile (store (final res)) = Some f
  /\ videoMetadata (store (final res)) = Some md
  /\ title (form (store (final res))) = JsString.strip_extension (name f)
  /\ log res = [EvToast (ToastFileSelected (name f) (size f))].
Proof.
  intros Hv Hd. cbv zeta. unfold handleFileSelect. rewrite Hv. cbn [negb].
  unfold bind, try_catch, extractVideoMetadata. rewrite Hd. repeat split.
Qed.

(** ** handleUpload: the two guards *)

(** Without a selected file, or with a title that is empty or all white
    space, [handleUpload] only shows a toast: no request, no state change. *)
Theorem handleUpload_guards (O : Oracle) (fuel : nat) (r : Render) (w : World) :
  videoFile (snap r) = None \/ JsString.blank (title (form (snap r))) = true ->
  let res := handleUpload O fuel r w in
  out res = Ret tt
  /\ final res = w
  /\ fetch_events (log res) = []
  /\ progress_events (log res) = []
  /\ log res = [EvToast (match videoFile (snap r) with
                         | None => ToastNoFile
                         | Some _ => ToastTitleRequired
                         end)].
Proof.
  intros H. cbv zeta. unfold handleUpload.
  destruct (videoFile (snap r)) as [f|].
  - destruct H as [H|H]; [discriminate|]. rewrite H. repeat split.
  - repeat split.
Qed.

Lemma handleUpload_guards_witness :
  fetch_events
    (log (handleUpload (Scenario.server None) 3
            (Scenario.render_of true
               (set_form (with_title "  " default_form) Scenario.selected))
            (Scenario.at_start Scenario.selected))) = [].
Proof.
  pose proof (handleUpload_guards (Scenario.server None) 3%nat
                (Scenario.render_of true
                   (set_form (with_title "  " default_form) Scenario.selected))
                (Scenario.at_start Scenario.selected) (or_intror eq_refl)) as H.
  cbv zeta in H. destruct H as (_ & _ & H & _). exact H.
Defined.

(** ** The transfer loop, whatever the session and the policy *)

Lemma upload_step_fetches O r startTime i ub c w :
  let res := upload_step O r startTime i ub c w in
  (session_ready (session (snap r)) = true
   /\ fetch_events (log res) = [(chunk_request r c, net O (fetches w))]
   /\ fetches (final res) = S (fetches w))
  \/ (session_ready (session (snap r)) = false
      /\ fetch_events (log res) = []
      /\ fetches (final res) = fetches w).
Proof.
  cbv zeta. unfold upload_step, try_catch, bind, uploadChunk.
  destruct (session_ready (session (snap r))); cbn [negb].
  - left. unfold bind, fetch.
    destruct (net O (fetches w)) as [msg|[|] [d|msg]];
      destruct (enableResume (props r)); repeat split.
  - right. destruct (enableResume (props r)); repeat split.
Qed.

Lemma for_chunks_no_session O r startTime :
  session_ready (session (snap r)) = false ->
  forall cs i ub w, fetch_events (log (for_chunks O r startTime i ub cs w)) = [].
Proof.
  intros Hnot. induction cs as [|c cs IH]; intros i ub w; [reflexivity|].
  cbn [for_chunks].
  assert (Hstep : fetch_events (log (upload_step O r startTime i ub c w)) = []).
  { destruct (upload_step_fetches O r startTime i ub c w)
      as [(Hyes & _)|(_ & Hev & _)]; [congruence | exact Hev]. }
  destruct (bind_log (upload_step O r startTime i ub c)
                     (fun u => for_chunks O r startTime (S i) u cs) w)
    as [(a & _ & _ & _ & Hlog)|(_ & _ & _ & Hlog)]; rewrite Hlog; clear Hlog.
  - now rewrite fetch_events_app, Hstep, IH.
  - exact Hstep.
Qed.

Lemma for_chunks_prefix O r startTime :
  forall cs i ub w,
  exists m, fetch_events (log (for_chunks O r startTime i ub cs w))
            = firstn m (planned O r (fetches w) cs).
Proof.
  destruct (session_ready (session (snap r))) eqn:Hready.
  - induction cs as [|c cs IH]; intros i ub w.
    + exists 0%nat. reflexivity.
    + cbn [for_chunks].
      assert (Hstep : fetch_events (log (upload_step O r startTime i ub c w))
                      = [(chunk_request r c, net O (fetches w))]
                      /\ fetches (final (upload_step O r startTime i ub c w))
                         = S (fetches w)).
      { destruct (upload_step_fetches O r startTime i ub c w)
          as [(_ & Hev & Hn)|(Hnot & _)]; [now split | congruence]. }
      destruct Hstep as (Hev & Hn).
      destruct (bind_log (upload_step O r startTime i ub c)
                         (fun u => for_chunks O r startTime (S i) u cs) w)
        as [(a & _ & _ & _ & Hlog)|(_ & _ & _ & Hlog)]; rewrite Hlog; clear Hlog.
      * rewrite fetch_events_app, Hev.
        destruct (IH (S i) a (final (upload_step O r startTime i ub c w))) as (m & Hm).
        rewrite Hm, Hn. exists (S m). now rewrite planned_cons.
      * rewrite Hev. exists 1%nat. now rewrite planned_cons.
  - intros cs i ub w. exists 0%nat.
    now rewrite (for_chunks_no_session O r startTime Hready).
Qed.

(** [uploadChunks] never asks for a chunk twice and never out of order: what
    it sends is an initial part of the list "one request per chunk, in the
    order of the chunk list", whatever the answers, the policy and the state
    of the session. *)
Theorem uploadChunks_sends_each_chunk_at_most_once (O : Oracle) (r : Render)
        (w : World) :
  exists m,
    fetch_events (log (uploadChunks O r w))
    = firstn m (planned O r (fetches w) (chunks (uploadProgress (snap r)))).
Proof.
  destruct (chunks (uploadProgress (snap r))) as [|c cs] eqn:Hcs.
  - exists 0%nat. now rewrite (uploadChunks_empty O r w Hcs).
  - rewrite (uploadChunks_run O r w) by congruence. rewrite Hcs.
    apply (for_chunks_prefix O r (now O (ticks w)) (c :: cs) 0%nat 0 (ticked w)).
Qed.

(** Before the session fields reach the render, no chunk leaves the browser:
    [uploadChunk] throws "Upload not initialized" ahead of its request.  With
    resumability off the error leaves the loop at the first chunk. *)
Theorem uploadChunks_without_session (O : Oracle) (r : Render) (w : World) :
  session_ready (session (snap r)) = false ->
  let res := uploadChunks O r w in
  fetch_events (log res) = []
  /\ fetches (final res) = fetches w
  /\ (enableResume (props r) = false ->
      chunks (uploadProgress (snap r)) <> [] ->
      out res = Throw {| message := "Upload not initialized" |}
      /\ store (final res) = store w).
Proof.
  intros Hnot res. unfold res.
  assert (Hkeep : forall st l i ub w0,
             fetches (final (for_chunks O r st i ub l w0)) = fetches w0).
  { intros st l. induction l as [|x l IH]; intros i ub w0; [reflexivity|].
    cbn [for_chunks].
    assert (Hx : fetches (final (upload_step O r st i ub x w0)) = fetches w0).
    { destruct (upload_step_fetches O r st i ub x w0)
        as [(Hyes & _)|(_ & _ & Hn)]; [congruence | exact Hn]. }
    destruct (bind_log (upload_step O r st i ub x)
                       (fun u => for_chunks O r st (S i) u l) w0)
      as [(a & _ & _ & Hfin & _)|(_ & _ & Hfin & _)]; rewrite Hfin.
    - now rewrite IH.
    - exact Hx. }
  destruct (chunks (uploadProgress (snap r))) as [|c cs] eqn:Hcs.
  - rewrite (uploadChunks_empty O r w Hcs). repeat split. congruence.
  - rewrite (uploadChunks_run O r w) by congruence. rewrite Hcs.
    split; [apply (for_chunks_no_session O r _ Hnot)|].
    split; [now rewrite Hkeep|].
    intros Hres _.
    assert (Hstep : upload_step O r (now O (ticks w)) 0 0 c (ticked w)
                    = {| out := Throw {| message := "Upload not initialized" |};
                         final := ticked w; log := [] |}).
    { unfold upload_step, try_catch, bind.
      rewrite (uploadChunk_not_ready O r c (ticked w) Hnot), Hres. reflexivity. }
    cbn [for_chunks].
    rewrite (bind_throw _ _ _ {| message := "Upload not initialized" |})
      by now rewrite Hstep.
    rewrite Hstep. split; reflexivity.
Qed.

Lemma uploadChunks_without_session_witness :
  fetch_events
    (log (uploadChunks (Scenario.server None)
            (Scenario.render_of false (set_session no_session Scenario.ready))
            (Scenario.at_start Scenario.ready))) = [].
Proof.
  pose proof (uploadChunks_without_session (Scenario.server None)
                (Scenario.render_of false (set_session no_session Scenario.ready))
                (Scenario.at_start Scenario.ready) eq_refl) as H.
  cbv zeta in H. destruct H as (H & _). exact H.
Defined.

Lemma map_mapi_from {A B C} (g : B -> C) (h : A -> C) (f : nat -> A -> B) l k :
  (forall j x, g (f j x) = h x) -> map g (mapi_from k f l) = map h l.
Proof.
  intros H. revert k; induction l as [|x l IH]; intros k; cbn; [reflexivity|].
  now rewrite H, IH.
Qed.

Lemma mark_only_flags i b cs :
  map (set_uploaded false) (mark i b cs) = map (set_uploaded false) cs.
Proof.
  unfold mark. apply map_mapi_from. intros j x. now destruct (Nat.eqb j i).
Qed.

(** Two progress values of the same job: same total, status and error, and
    the same chunks up to their [uploaded] flags. *)
Definition same_job (p p' : UploadProgress) : Prop :=
  total p' = total p
  /\ status p' = status p
  /\ error_message p' = error_message p
  /\ map (set_uploaded false) (chunks p') = map (set_uploaded false) (chunks p).

Lemma for_chunks_same_job O r startTime :
  forall cs i ub w,
    same_job (uploadProgress (store w))
             (uploadProgress (store (final (for_chunks O r startTime i ub cs w)))).
Proof.
  induction cs as [|c cs IH]; intros i ub w.
  - cbn [for_chunks ret final]. repeat split.
  - cbn [for_chunks].
    assert (Hstep : same_job (uploadProgress (store w))
                      (uploadProgress (store (final (upload_step O r startTime i ub c w))))).
    { destruct (upload_step_cases O r startTime i ub c w)
        as [(p & Hp & _ & _ & Hst)|[(p & Hp & _ & _ & Hst)|(_ & _ & Hst)]];
        rewrite Hst; try rewrite Hp; unfold same_job;
        cbn [progressed with_chunks total status error_message chunks];
        rewrite ?mark_only_flags; repeat split. }
    destruct (bind_log (upload_step O r startTime i ub c)
                       (fun u => for_chunks O r startTime (S i) u cs) w)
      as [(a & _ & _ & Hfin & _)|(_ & _ & Hfin & _)]; rewrite Hfin.
    + destruct Hstep as (H1 & H2 & H3 & H4).
      destruct (IH (S i) a (final (upload_step O r startTime i ub c w)))
        as (K1 & K2 & K3 & K4).
      unfold same_job. rewrite K1, K2, K3, K4. repeat split; assumption.
    + exact Hstep.
Qed.

(** The transfer loop only moves the counters and the [uploaded] flags: the
    total, the status, the error text and the chunks themselves (index, byte
    range, blob, and how many there are) stay as they were.  In particular
    [uploadChunks] never sets the status to [completed] or [error] itself. *)
Theorem uploadChunks_only_flags (O : Oracle) (r : Render) (w : World) :
  same_job (uploadProgress (store w))
           (uploadProgress (store (final (uploadChunks O r w)))).
Proof.
  destruct (chunks (uploadProgress (snap r))) as [|c cs] eqn:Hcs.
  - rewrite (uploadChunks_empty O r w Hcs). repeat split.
  - rewrite (uploadChunks_run O r w) by congruence.
    apply (for_chunks_same_job O r (now O (ticks w)) _ 0%nat 0 (ticked w)).
Qed.

(** ** Initialisation that fails, or does not end *)

(** What [initializeUpload] throws on an answer that is not a 2xx with a
    readable body. *)
Definition init_error (resp : Response) : JsError :=
  match resp with
  | NetFail msg => {| message := msg |}
  | Resp true (JsonBad msg) => {| message := msg |}
  | _ => {| message := "Failed to initialize upload" |}
  end.

Lemma initializeUpload_failed O fuel r w f :
  videoFile (snap r) = Some f ->
  chunk_ok (net O (fetches w)) = false ->
  initializeUpload O fuel r w
  = {| out := Throw (init_error (net O (fetches w)));
       final := sent w;
       log := [EvFetch (ReqInit (name f) (size f) (courseId (props r)))
                       (net O (fetches w));
               EvToast ToastInitFailed] |}.
Proof.
  intros Hf Hbad. unfold initializeUpload. rewrite Hf.
  unfold try_catch, bind, fetch.
  destruct (net O (fetches w)) as [msg|[|] [d|msg]]; try discriminate; reflexivity.
Qed.

(** A session initialisation that fails is fatal: [handleUpload] makes that
    one request, shows the toast, and leaves the job in [error] with the
    message of the failure; no chunk list is built, no session is stored, and
    neither a chunk nor the completion request is sent. *)
Theorem initialization_failure_is_fatal (O : Oracle) (fuel : nat) (r : Render)
        (w : World) (f : File) :
  videoFile (snap r) = Some f ->
  JsString.blank (title (form (snap r))) = false ->
  chunk_ok (net O (fetches w)) = false ->
  let res := handleUpload O fuel r w in
  out res = Ret tt
  /\ log res
     = [EvFetch (ReqInit (name f) (size f) (courseId (props r))) (net O (fetches w));
        EvToast ToastInitFailed;
        EvProgress (with_status error
                      (Some (message (init_error (net O (fetches w)))))
                      (uploadProgress (store w)))]
  /\ store (final res)
     = set_uploadProgress
         (with_status error (Some (message (init_error (net O (fetches w)))))
                      (uploadProgress (store w)))
         (store w)
  /\ fetches (final res) = S (fetches w).
Proof.
  intros Hf Ht Hbad res. unfold res.
  rewrite (handleUpload_run O fuel r w f Hf Ht).
  pose proof (initializeUpload_failed O fuel r w f Hf Hbad) as Hinit.
  assert (Hpipe : pipeline O fuel r w
                  = {| out := Throw (init_error (net O (fetches w)));
                       final := sent w;
                       log := [EvFetch (ReqInit (name f) (size f) (courseId (props r)))
                                       (net O (fetches w));
                               EvToast ToastInitFailed] |}).
  { unfold pipeline.
    rewrite (bind_throw _ _ _ (init_error (net O (fetches w)))) by now rewrite Hinit.
    now rewrite Hinit. }
  rewrite (try_catch_throw _ _ _ (init_error (net O (fetches w)))) by now rewrite Hpipe.
  rewrite Hpipe. repeat split.
Qed.

Lemma initialization_failure_is_fatal_witness :
  let res := handleUpload (Scenario.server (Some 0%nat)) 3
               (Scenario.render_of true Scenario.selected)
               (Scenario.at_start Scenario.selected) in
  status (uploadProgress (store (final res))) = error
  /\ error_message (uploadProgress (store (final res)))
     = Some "Failed to initialize upload"%string
  /\ List.length (fetch_events (log res)) = 1%nat.
Proof.
  pose proof (initialization_failure_is_fatal (Scenario.server (Some 0%nat)) 3%nat
                (Scenario.render_of true Scenario.selected)
                (Scenario.at_start Scenario.selected)
                Scenario.lecture eq_refl eq_refl eq_refl) as H.
  cbv zeta in H. destruct H as (_ & Hlog & Hst & _).
  cbv zeta. rewrite Hst, Hlog. repeat split.
Defined.

Lemma create_chunks_stuck f c :
  c <= 0 ->
  forall fuel s k, s < size f -> create_chunks fuel f c s k = None.
Proof.
  intros Hc. induction fuel as [|fuel IH]; intros s k Hs; cbn [create_chunks];
    destruct (Z.ltb_spec s (size f)); try lia; [reflexivity|].
  rewrite IH by lia. reflexivity.
Qed.

(** With a chunk size of zero or less the partitioning loop of a non-empty
    file never ends: no number of iterations is enough, and [handleUpload]
    does not come back. *)
Theorem nonpositive_chunk_size_never_ends (O : Oracle) (r : Render) (w : World)
        (f : File) (d : Json) :
  videoFile (snap r) = Some f ->
  JsString.blank (title (form (snap r))) = false ->
  net O (fetches w) = Resp true (JsonOk d) ->
  chunkSize (props r) <= 0 ->
  0 < size f ->
  forall fuel,
    out (initializeUpload O fuel r w) = Diverge
    /\ out (handleUpload O fuel r w) = Diverge
    /\ progress_events (log (handleUpload O fuel r w)) = [].
Proof.
  intros Hf Ht Hnet Hc Hsize fuel.
  assert (Hinit : initializeUpload O fuel r w
                  = {| out := Diverge;
                       final := {| store := set_session
                                              {| uploadId := j_uploadId d;
                                                 uploadUrl := j_uploadUrl d;
                                                 uploadPreset := j_uploadPreset d;
                                                 cloudName := j_cloudName d |} (store w);
                                   fetches := S (fetches w); ticks := ticks w |};
                       log := [EvFetch (ReqInit (name f) (size f) (courseId (props r)))
                                       (Resp true (JsonOk d))] |}).
  { unfold initializeUpload. rewrite Hf.
    unfold try_catch, bind, fetch, createChunks. rewrite Hnet.
    cbn [response_ok negb json ret].
    rewrite (create_chunks_stuck f _ Hc fuel 0 0 Hsize). reflexivity. }
  split; [now rewrite Hinit|].
  rewrite (handleUpload_run O fuel r w f Hf Ht).
  assert (Hpipe : out (pipeline O fuel r w) = Diverge
                  /\ log (pipeline O fuel r w) = log (initializeUpload O fuel r w)).
  { unfold pipeline. rewrite (bind_diverge _ _ _) by now rewrite Hinit.
    split; reflexivity. }
  destruct Hpipe as (Hout & Hlog).
  rewrite (try_catch_diverge _ _ _ Hout), Hlog, Hinit. split; [exact Hout | reflexivity].
Qed.

Lemma nonpositive_chunk_size_never_ends_witness :
  out (handleUpload (Scenario.server None) 1000
         {| props := {| courseId := "course-1"; onSuccess := true;
                        maxFileSize := DEFAULT_MAX_FILE_SIZE;
                        allowedFormats := SUPPORTED_FORMATS;
                        chunkSize := 0; enableResume := true |};
            snap := Scenario.selected |}
         (Scenario.at_start Scenario.selected)) = Diverge.
Proof.
  apply (nonpositive_chunk_size_never_ends (Scenario.server None)
           {| props := {| courseId := "course-1"; onSuccess := true;
                          maxFileSize := DEFAULT_MAX_FILE_SIZE;
                          allowedFormats := SUPPORTED_FORMATS;
                          chunkSize := 0; enableResume := true |};
              snap := Scenario.selected |}
           (Scenario.at_start Scenario.selected)
           Scenario.lecture Scenario.answer eq_refl eq_refl eq_refl);
    [discriminate | reflexivity].
Defined.

(** ** handleUpload as a whole *)

Lemma upload_step_ends O r startTime i ub c w :
  out (upload_step O r startTime i ub c w) <> Diverge.
Proof.
  unfold upload_step, try_catch, bind, uploadChunk.
  destruct (session_ready (session (snap r))); cbn [negb].
  - unfold bind, fetch.
    destruct (net O (fetches w)) as [msg|[|] [d|msg]];
      destruct (enableResume (props r)); discriminate.
  - destruct (enableResume (props r)); discriminate.
Qed.

Lemma for_chunks_ends O r startTime :
  forall cs i ub w, out (for_chunks O r startTime i ub cs w) <> Diverge.
Proof.
  induction cs as [|c cs IH]; intros i ub w; [discriminate|].
  cbn [for_chunks].
  destruct (out (upload_step O r startTime i ub c w)) as [a|e|] eqn:Hout.
  - rewrite (bind_ret _ _ _ a Hout). apply IH.
  - rewrite (bind_throw _ _ _ e Hout). discriminate.
  - now elim (upload_step_ends O r startTime i ub c w).
Qed.

Lemma uploadChunks_ends O r w : out (uploadChunks O r w) <> Diverge.
Proof.
  destruct (chunks (uploadProgress (snap r))) as [|c cs] eqn:Hcs.
  - now rewrite (uploadChunks_empty O r w Hcs).
  - rewrite (uploadChunks_run O r w) by congruence. apply for_chunks_ends.
Qed.

Lemma initializeUpload_ends O fuel r w f cs :
  videoFile (snap r) = Some f ->
  create_chunks fuel f (chunkSize (props r)) 0 0 = Some cs ->
  out (initializeUpload O fuel r w) <> Diverge.
Proof.
  intros Hf Hcs. unfold initializeUpload. rewrite Hf.
  unfold try_catch, bind, fetch, createChunks. rewrite Hcs.
  destruct (net O (fetches w)) as [msg|[|] [d|msg]]; discriminate.
Qed.

(** No error escapes [handleUpload]: whatever the server answers, it never
    throws; an error of one of the three phases ends in status [error] with
    the message of that error.  With a positive chunk size it always comes
    back. *)
Theorem handleUpload_catches_everything (O : Oracle) (fuel : nat) (r : Render)
        (w : World) :
  let res := handleUpload O fuel r w in
  (forall e, out res <> Throw e)
  /\ (forall e, videoFile (snap r) <> None ->
                JsString.blank (title (form (snap r))) = false ->
                out (pipeline O fuel r w) = Throw e ->
                out res = Ret tt
                /\ status (uploadProgress (store (final res))) = error
                /\ error_message (uploadProgress (store (final res)))
                   = Some (message e))
  /\ (forall f, videoFile (snap r) = Some f ->
                0 < chunkSize (props r) ->
                ceil_div (size f) (chunkSize (props r)) <= Z.of_nat fuel ->
                out res = Ret tt).
Proof.
  cbv zeta.
  assert (Hguard : forall f, videoFile (snap r) = Some f ->
             JsString.blank (title (form (snap r))) = false ->
             handleUpload O fuel r w
             = try_catch (pipeline O fuel r)
                 (fun e => setUploadProgress (with_status error (Some (message e)))) w)
    by (intros f; apply handleUpload_run).
  split; [|split].
  - intros e. unfold handleUpload.
    destruct (videoFile (snap r)) as [f|]; [|discriminate].
    destruct (JsString.blank (title (form (snap r)))); [discriminate|].
    fold (pipeline O fuel r).
    destruct (out (pipeline O fuel r w)) as [a|e'|] eqn:Hout.
    + rewrite (try_catch_ret _ _ _ a Hout), Hout. discriminate.
    + rewrite (try_catch_throw _ _ _ e' Hout). discriminate.
    + rewrite (try_catch_diverge _ _ _ Hout), Hout. discriminate.
  - intros e Hsome Ht Hout.
    destruct (videoFile (snap r)) as [f|] eqn:Hf; [|congruence].
    rewrite (Hguard f eq_refl Ht), (try_catch_throw _ _ _ e Hout). repeat split.
  - intros f Hf Hc Hfuel.
    destruct (ceil_div_bounds (size f) (chunkSize (props r)) Hc) as (_ & Hup).
    destruct (create_chunks_spec f (chunkSize (props r)) Hc fuel 0 0)
      as (cs & Hcs & _); [lia | nia |].
    unfold handleUpload. rewrite Hf.
    destruct (JsString.blank (title (form (snap r)))); [reflexivity|].
    fold (pipeline O fuel r).
    destruct (out (pipeline O fuel r w)) as [[]|e'|] eqn:Hout.
    + now rewrite (try_catch_ret _ _ _ tt Hout).
    + now rewrite (try_catch_throw _ _ _ e' Hout).
    + exfalso. unfold pipeline in Hout.
      destruct (out (initializeUpload O fuel r w)) as [a|e'|] eqn:Hi.
      * rewrite (bind_ret _ _ _ a Hi) in Hout. cbn [out] in Hout.
        destruct (out (uploadChunks O r (final (initializeUpload O fuel r w))))
          as [b|e'|] eqn:Hu.
        -- rewrite (bind_ret _ _ _ b Hu) in Hout. cbn [out] in Hout.
           rewrite completeUpload_returns in Hout. discriminate.
        -- rewrite (bind_throw _ _ _ e' Hu) in Hout. discriminate.
        -- now elim (uploadChunks_ends O r (final (initializeUpload O fuel r w))).
      * rewrite (bind_throw _ _ _ e' Hi) in Hout. discriminate.
      * now elim (initializeUpload_ends O fuel r w f cs Hf Hcs).
Qed.

Lemma handleUpload_catches_everything_witness :
  out (handleUpload (Scenario.server (Some 2%nat)) 3
         (Scenario.render_of false Scenario.ready)
         (Scenario.at_start Scenario.ready)) = Ret tt.
Proof.
  apply (proj2 (proj2 (handleUpload_catches_everything (Scenario.server (Some 2%nat))
                         3%nat (Scenario.render_of false Scenario.ready)
                         (Scenario.at_start Scenario.ready)))
           Scenario.lecture eq_refl).
  - reflexivity.
  - vm_compute. discriminate.
Defined.

(** [uploadChunks] and [completeUpload] read the chunk list and the session
    of the render they were created in, not the state.  Called from a render
    in which no job has been initialised yet (no chunks, no upload id or
    cloud name), [handleUpload] therefore only initialises: one request, the
    chunk list stored with status [uploading], and neither a chunk nor the
    completion request sent. *)
Theorem handleUpload_from_uninitialised_render (O : Oracle) (fuel : nat)
        (r : Render) (w : World) (f : File) (d : Json) (cs : list UploadChunk) :
  videoFile (snap r) = Some f ->
  JsString.blank (title (form (snap r))) = false ->
  chunks (uploadProgress (snap r)) = [] ->
  handshake_ready r = false ->
  net O (fetches w) = Resp true (JsonOk d) ->
  create_chunks fuel f (chunkSize (props r)) 0 0 = Some cs ->
  let res := handleUpload O fuel r w in
  out res = Ret tt
  /\ store (final res) = initialized d (size f) cs (store w)
  /\ status (uploadProgress (store (final res))) = uploading
  /\ chunks (uploadProgress (store (final res))) = cs
  /\ fetch_events (log res)
     = [(ReqInit (name f) (size f) (courseId (props r)), Resp true (JsonOk d))]
  /\ success_calls (log res) = [].
Proof.
  intros Hf Ht Hnone Hnot Hnet Hcs res. unfold res.
  pose proof (initializeUpload_ok O fuel r w f d cs Hf Hnet Hcs) as Hinit.
  rewrite (handleUpload_run O fuel r w f Hf Ht).
  assert (Hpipe : pipeline O fuel r w
                  = {| out := Ret tt;
                       final := final (initializeUpload O fuel r w);
                       log := log (initializeUpload O fuel r w) |}).
  { unfold pipeline.
    rewrite (bind_ret _ _ _ (Some d)) by now rewrite Hinit.
    rewrite (bind_ret _ _ _ tt) by now rewrite (uploadChunks_empty O r _ Hnone).
    rewrite (uploadChunks_empty O r _ Hnone). cbn [out final log].
    rewrite (completeUpload_not_ready O r _ Hnot). cbn [out final log].
    now rewrite !app_nil_r. }
  rewrite (try_catch_ret _ _ _ tt) by now rewrite Hpipe.
  rewrite Hpipe, Hinit. repeat split.
Qed.

Lemma handleUpload_from_uninitialised_render_witness :
  let res := handleUpload (Scenario.server None) 3
               (Scenario.render_of true Scenario.selected)
               (Scenario.at_start Scenario.selected) in
  List.length (fetch_events (log res)) = 1%nat
  /\ status (uploadProgress (store (final res))) = uploading
  /\ map uploaded (chunks (uploadProgress (store (final res)))) = [false; false; false].
Proof.
  pose proof (handleUpload_from_uninitialised_render (Scenario.server None) 3%nat
                (Scenario.render_of true Scenario.selected)
                (Scenario.at_start Scenario.selected)
                Scenario.lecture Scenario.answer
                (chunks (uploadProgress Scenario.ready))
                eq_refl eq_refl eq_refl eq_refl eq_refl eq_refl) as H.
  cbv zeta in H. destruct H as (_ & _ & Hst & Hcs & Hev & _).
  cbv zeta. rewrite Hst, Hcs, Hev. repeat split.
Defined.

(** ** The percentage over a whole upload *)

Definition ranged (p : UploadProgress) : Prop :=
  JsNum.le (JsNum.Fin 0) (percentage p) /\ JsNum.le (percentage p) (JsNum.Fin 100).

Lemma ranged_same p q : percentage p = percentage q -> ranged q -> ranged p.
Proof. unfold ranged. now intros ->. Qed.

Lemma fresh_ranged p : fresh p -> ranged p.
Proof.
  intros (_ & Hp). unfold ranged. destruct (percentage p) as [q| | |]; cbn in *;
    try tauto.
  rewrite Hp. split; [apply Qle_refl | discriminate].
Qed.

Lemma good_ranged T u p : 0 < T -> u <= T -> good T u p -> ranged p.
Proof.
  intros HT Hu (_ & H0 & Hle & _). split; [exact H0|].
  eapply le_trans; [exact Hle | now apply pct_upper].
Qed.

Lemma initializeUpload_progress O fuel r w f :
  videoFile (snap r) = Some f ->
  let init := initializeUpload O fuel r w in
  let prev := uploadProgress (store w) in
  (exists a cs,
      out init = Ret a
      /\ progress_events (log init) = [started (size f) cs prev]
      /\ uploadProgress (store (final init)) = started (size f) cs prev)
  \/ ((forall a, out init <> Ret a)
      /\ progress_events (log init) = []
      /\ uploadProgress (store (final init)) = prev).
Proof.
  intros Hf. cbv zeta. unfold initializeUpload. rewrite Hf.
  unfold try_catch, bind, fetch, createChunks.
  destruct (net O (fetches w)) as [msg|[|] [d|msg]];
    cbn [response_ok negb json ret throw];
    try (right; repeat split; discriminate).
  destruct (create_chunks fuel f (chunkSize (props r)) 0 0) as [cs|].
  - left. exists (Some d), cs. repeat split.
  - right. repeat split; discriminate.
Qed.

Lemma completeUpload_progress O r w :
  Forall (fun p => percentage p = percentage (uploadProgress (store w))
                   \/ p = idle_progress)
         (progress_events (log (completeUpload O r w))).
Proof.
  destruct (handshake_ready r) eqn:Hready.
  - destruct (chunk_ok (net O (fetches w))) eqn:Hok.
    + destruct (net O (fetches w)) as [msg|[|] [d|msg]] eqn:Hnet; try discriminate.
      rewrite (completeUpload_done O r w d Hready Hnet). cbn [log].
      rewrite !progress_events_app. unfold success_events.
      destruct (onSuccess (props r)); cbn [progress_events flat_map app];
        (constructor; [left; reflexivity|]); (constructor; [right; reflexivity|]);
        constructor.
    + rewrite (completeUpload_failed O r w Hready Hok).
      cbn [log progress_events flat_map app].
      constructor; [left; reflexivity | constructor].
  - rewrite (completeUpload_not_ready O r w Hready). constructor.
Qed.

Lemma uploadChunks_ranged O r w T :
  0 < T ->
  total (uploadProgress (store w)) = T ->
  fresh (uploadProgress (store w)) ->
  chunks (uploadProgress (snap r)) = []
  \/ tiles 0 T (chunks (uploadProgress (snap r))) ->
  Forall ranged (progress_events (log (uploadChunks O r w)))
  /\ ranged (uploadProgress (store (final (uploadChunks O r w)))).
Proof.
  intros HT Htot Hfresh [Hnone|Htiles].
  - rewrite (uploadChunks_empty O r w Hnone). split; [constructor|].
    now apply fresh_ranged.
  - pose proof (tiles_nonempty _ _ _ Htiles HT) as Hne.
    destruct (tiles_bytes_of _ _ _ Htiles) as (Hbytes & Hpos).
    rewrite (uploadChunks_run O r w Hne).
    destruct (for_chunks_progress O r T HT (now O (ticks w))
                (chunks (uploadProgress (snap r))) 0%nat 0 (ticked w))
      as (_ & Hall & Hend); try lia.
    + now apply positive_sizes.
    + now apply fresh_good.
    + split.
      * eapply Forall_impl; [|exact Hall]. intros p. apply good_ranged; lia.
      * eapply good_ranged; [exact HT | | exact Hend]. lia.
Qed.

(** Over a whole run of [handleUpload] on a non-empty file, started from a
    state in which nothing has been counted yet and from a render whose chunk
    list is empty or tiles that file, every value written to the progress
    state has a percentage between 0 and 100. *)
Theorem handleUpload_percentage_in_range (O : Oracle) (fuel : nat) (r : Render)
        (w : World) (f : File) :
  videoFile (snap r) = Some f ->
  0 < size f ->
  chunks (uploadProgress (snap r)) = []
  \/ tiles 0 (size f) (chunks (uploadProgress (snap r))) ->
  fresh (uploadProgress (store w)) ->
  Forall ranged (progress_events (log (handleUpload O fuel r w))).
Proof.
  intros Hf Hsize Hcs Hfresh.
  unfold handleUpload. rewrite Hf.
  destruct (JsString.blank (title (form (snap r)))); [constructor|].
  fold (pipeline O fuel r).
  pose proof (fresh_ranged _ Hfresh) as Hprev.
  (* what the three phases write, and the progress they leave *)
  assert (Hpipe : Forall ranged (progress_events (log (pipeline O fuel r w)))
                  /\ ranged (uploadProgress (store (final (pipeline O fuel r w))))).
  { unfold pipeline.
    destruct (bind_log (initializeUpload O fuel r)
                (fun _ => uploadChunks O r ;; completeUpload O r) w)
      as [(a & Ha & _ & Hfin1 & Hlog1)|(Hno & _ & Hfin1 & Hlog1)];
      rewrite Hlog1, Hfin1; clear Hlog1 Hfin1.
    - destruct (initializeUpload_progress O fuel r w f Hf)
        as [(a' & cs & _ & Hev & Hst)|(Hno & _)]; [|now elim (Hno a)].
      set (w1 := final (initializeUpload O fuel r w)) in *.
      assert (Hfresh1 : fresh (uploadProgress (store w1))) by (rewrite Hst; exact Hfresh).
      assert (Htot1 : total (uploadProgress (store w1)) = size f) by now rewrite Hst.
      destruct (uploadChunks_ranged O r w1 (size f) Hsize Htot1 Hfresh1 Hcs)
        as (Hloop & Hend).
      rewrite progress_events_app, Hev.
      assert (Hinit : ranged (started (size f) cs (uploadProgress (store w))))
        by (apply (ranged_same _ (uploadProgress (store w))); [reflexivity | exact Hprev]).
      destruct (bind_log (uploadChunks O r) (fun _ => completeUpload O r) w1)
        as [(b & _ & _ & Hfin2 & Hlog2)|(_ & _ & Hfin2 & Hlog2)];
        rewrite Hlog2, Hfin2; clear Hlog2 Hfin2.
      + set (w2 := final (uploadChunks O r w1)) in *.
        assert (Hdone : Forall ranged (progress_events (log (completeUpload O r w2)))).
        { eapply Forall_impl; [|apply completeUpload_progress].
          intros p [Hp| ->].
          - now apply (ranged_same _ (uploadProgress (store w2))).
          - split; cbn; discriminate. }
        split.
        * constructor; [exact Hinit|]. rewrite progress_events_app.
          apply Forall_app. split; assumption.
        * destruct (handshake_ready r) eqn:Hready.
          -- destruct (chunk_ok (net O (fetches w2))) eqn:Hok.
             ++ destruct (net O (fetches w2)) as [msg|[|] [d|msg]] eqn:Hnet;
                  try discriminate.
                rewrite (completeUpload_done O r w2 d Hready Hnet).
                split; cbn; discriminate.
             ++ rewrite (completeUpload_failed O r w2 Hready Hok).
                now apply (ranged_same _ (uploadProgress (store w2))).
          -- now rewrite (completeUpload_not_ready O r w2 Hready).
      + split; [constructor; assumption | exact Hend].
    - destruct (initializeUpload_progress O fuel r w f Hf)
        as [(a' & cs & Hout & _)|(_ & Hev & Hst)]; [now elim (Hno a')|].
      rewrite Hev, Hst. split; [constructor | exact Hprev]. }
  destruct Hpipe as (Hall & Hend).
  destruct (out (pipeline O fuel r w)) as [a|e|] eqn:Hout.
  - now rewrite (try_catch_ret _ _ _ a Hout).
  - rewrite (try_catch_throw _ _ _ e Hout). cbn [log].
    rewrite progress_events_app. apply Forall_app. split; [exact Hall|].
    constructor; [|constructor].
    now apply (ranged_same _ (uploadProgress (store (final (pipeline O fuel r w))))).
  - now rewrite (try_catch_diverge _ _ _ Hout).
Qed.

Lemma handleUpload_percentage_in_range_witness :
  Forall ranged
    (progress_events
       (log (handleUpload (Scenario.server (Some 2%nat)) 3
               (Scenario.render_of true Scenario.ready)
               (Scenario.at_start Scenario.ready)))).
Proof.
  apply (handleUpload_percentage_in_range (Scenario.server (Some 2%nat)) 3%nat
           (Scenario.render_of true Scenario.ready)
           (Scenario.at_start Scenario.ready) Scenario.lecture eq_refl eq_refl).
  - right. vm_compute.
    repeat (apply tiles_cons; [reflexivity | reflexivity | reflexivity |]).
    apply tiles_nil.
  - split; [reflexivity | vm_compute; reflexivity].
Defined.

(** ** File names *)

Lemma split_nonempty sep s : JsString.split sep s <> [].
Proof.
  destruct s as [|c s]; cbn; [discriminate|].
  destruct (Ascii.eqb c sep); [discriminate|].
  destruct (JsString.split sep s); discriminate.
Qed.

Lemma split_app sep a b :
  JsString.split sep (a ++ String sep b)%string
  = JsString.split sep a ++ JsString.split sep b.
Proof.
  induction a as [|c a IH]; cbn.
  - now rewrite Ascii.eqb_refl.
  - destruct (Ascii.eqb c sep); rewrite IH; [reflexivity|].
    pose proof (split_nonempty sep a) as Hne.
    destruct (JsString.split sep a) as [|seg segs]; [congruence | reflexivity].
Qed.

Lemma split_without sep s :
  JsString.has_char sep s = false -> JsString.split sep s = [s].
Proof.
  induction s as [|c s IH]; cbn; [reflexivity|].
  rewrite Ascii.eqb_sym. destruct (Ascii.eqb c sep); cbn; [discriminate|].
  intros H. now rewrite (IH H).
Qed.

Lemma join_split sep s :
  JsString.join (String sep EmptyString) (JsString.split sep s) = s.
Proof.
  induction s as [|c s IH]; cbn [JsString.split]; [reflexivity|].
  pose proof (split_nonempty sep s) as Hne.
  destruct (Ascii.eqb_spec c sep) as [->|Hc].
  - destruct (JsString.split sep s) as [|seg segs]; [congruence|].
    change (JsString.join (String sep "") ("" :: seg :: segs)%string)
      with (String sep (JsString.join (String sep "") (seg :: segs))).
    now rewrite IH.
  - destruct (JsString.split sep s) as [|seg segs]; [congruence|].
    destruct segs as [|seg' segs].
    + cbn in *. now rewrite IH.
    + change (JsString.join (String sep "") (String c seg :: seg' :: segs))
        with (String c (JsString.join (String sep "") (seg :: seg' :: segs))).
      now rewrite IH.
Qed.

Lemma pop_last l x : JsString.pop (l ++ [x]) = Some x.
Proof. unfold JsString.pop. now rewrite rev_app_distr. Qed.

(** The two readings of a file name agree on where the extension starts:
    for a name [base.ext] whose [ext] is not empty and has neither dot nor
    slash, the default title is [base] (dots inside [base] are kept) and the
    extension checked by the validator is [ext] in lower case.  A name
    without any dot is its own title and its own extension. *)
Theorem file_name_parts :
  (forall (f : File) (base ext : string),
      name f = (base ++ String "." ext)%string ->
      JsString.has_char "." ext = false ->
      extension_of f = Some (JsString.toLowerCase ext)
      /\ (ext <> EmptyString -> JsString.has_char "/" ext = false ->
          JsString.strip_extension (name f) = base))
  /\
  (forall (f : File),
      JsString.has_char "." (name f) = false ->
      extension_of f = Some (JsString.toLowerCase (name f))
      /\ JsString.strip_extension (name f) = name f).
Proof.
  split.
  - intros f base ext Hname Hdot.
    assert (Hsplit : JsString.split "." (name f) = JsString.split "." base ++ [ext])
      by now rewrite Hname, split_app, (split_without _ _ Hdot).
    split.
    + unfold extension_of. now rewrite Hsplit, pop_last.
    + intros Hne Hslash. unfold JsString.strip_extension.
      rewrite Hsplit, pop_last, removelast_last, join_split.
      rewrite (is_empty_false _ Hne), Hslash, length_app.
      pose proof (split_nonempty "." base) as Hb.
      destruct (JsString.split "." base) as [|x l]; [congruence|].
      cbn [List.length]. replace (Nat.ltb 1 (S (List.length l) + 1)) with true;
        [reflexivity|].
      symmetry. apply Nat.ltb_lt. lia.
  - intros f Hdot.
    unfold extension_of, JsString.strip_extension.
    rewrite (split_without _ _ Hdot). split; [reflexivity|].
    cbn. now destruct (name f).
Qed.

Lemma file_name_parts_witness :
  extension_of {| name := "Lecture.One.MP4"; size := 1; type := "video/mp4" |}
  = Some "mp4"%string
  /\ JsString.strip_extension "Lecture.One.MP4" = "Lecture.One"%string.
Proof.
  pose proof (proj1 file_name_parts
                {| name := "Lecture.One.MP4"; size := 1; type := "video/mp4" |}
                "Lecture.One"%string "MP4"%string eq_refl eq_refl) as H.
  destruct H as (Hext & Hstrip). split.
  - rewrite Hext. reflexivity.
  - apply Hstrip; [discriminate | reflexivity].
Defined.

(** ** Completion after skipped chunks *)

Lemma uploadChunks_resume O r w :
  session_ready (session (snap r)) = true ->
  enableResume (props r) = true ->
  let cs := chunks (uploadProgress (snap r)) in
  out (uploadChunks O r w) = Ret tt
  /\ fetches (final (uploadChunks O r w)) = (fetches w + List.length cs)%nat
  /\ fetch_events (log (uploadChunks O r w)) = planned O r (fetches w) cs.
Proof.
  intros Hready Hresume cs. unfold cs.
  destruct (chunks (uploadProgress (snap r))) as [|c0 cs0] eqn:Hcs.
  - rewrite (uploadChunks_empty O r w Hcs). cbn. repeat split. lia.
  - rewrite (uploadChunks_run O r w) by congruence. rewrite Hcs.
    destruct (for_chunks_resume O r Hready (now O (ticks w)) Hresume
                (c0 :: cs0) 0%nat 0 (ticked w)) as (Hout & Hn & Hev & _).
    repeat split; assumption.
Qed.

(** With resumability on, chunks that failed do not hold the job back:
    after the initialisation [handleUpload] asks for every chunk once and
    then sends the completion request, whatever the chunk answers were; if
    that request is answered 2xx, [onSuccess] is called and the state is
    reset, even though some chunks never went through. *)
Theorem resume_completes_despite_failures (O : Oracle) (fuel : nat) (r : Render)
        (w : World) (f : File) (d : option Json) :
  videoFile (snap r) = Some f ->
  JsString.blank (title (form (snap r))) = false ->
  session_ready (session (snap r)) = true ->
  handshake_ready r = true ->
  enableResume (props r) = true ->
  let init := initializeUpload O fuel r w in
  let cs := chunks (uploadProgress (snap r)) in
  let last_ := (fetches (final init) + List.length cs)%nat in
  out init = Ret d ->
  let res := handleUpload O fuel r w in
  out res = Ret tt
  /\ fetch_events (log res)
     = fetch_events (log init)
       ++ planned O r (fetches (final init)) cs
       ++ [(complete_request r, net O last_)]
  /\ (forall d', net O last_ = Resp true (JsonOk d') ->
        store (final res) = default_store
        /\ success_calls (log res) = success_calls (success_events r d')).
Proof.
  intros Hf Ht Hready Hshake Hresume init cs last_ Hinit res.
  destruct (uploadChunks_resume O r (final init) Hready Hresume)
    as (Hout & Hn & Hev).
  fold cs in Hn, Hev. fold last_ in Hn.
  set (uc := uploadChunks O r (final init)) in *.
  set (cu := completeUpload O r (final uc)).
  assert (Hpipe : pipeline O fuel r w
                  = {| out := out cu; final := final cu;
                       log := log init ++ log uc ++ log cu |}).
  { unfold pipeline. rewrite (bind_ret _ _ _ d Hinit). fold init.
    rewrite (bind_ret _ _ _ tt Hout). reflexivity. }
  assert (Hres : res = {| out := out cu; final := final cu;
                          log := log init ++ log uc ++ log cu |}).
  { unfold res. rewrite (handleUpload_run O fuel r w f Hf Ht).
    rewrite (try_catch_ret _ _ _ tt); [exact Hpipe|].
    rewrite Hpipe. apply completeUpload_returns. }
  assert (Hreq : fetch_events (log cu) = [(complete_request r, net O last_)]).
  { unfold cu. destruct (chunk_ok (net O (fetches (final uc)))) eqn:Hok.
    - destruct (net O (fetches (final uc))) as [msg|[|] [d'|msg]] eqn:Hnet;
        try discriminate.
      rewrite (completeUpload_done O r _ d' Hshake Hnet). cbn [log].
      rewrite !fetch_events_app. unfold success_events.
      rewrite <- Hn, Hnet. now destruct (onSuccess (props r)).
    - rewrite (completeUpload_failed O r _ Hshake Hok). now rewrite <- Hn. }
  rewrite Hres. cbn [out final log]. split; [apply completeUpload_returns|]. split.
  - now rewrite !fetch_events_app, Hev, Hreq.
  - intros d' Hnet. rewrite <- Hn in Hnet. unfold cu.
    rewrite (completeUpload_done O r _ d' Hshake Hnet). cbn [final log closed store].
    split; [reflexivity|].
    rewrite !success_calls_app.
    rewrite (quiet_success_calls (log init)) by apply initializeUpload_quiet.
    rewrite (quiet_success_calls (log uc)) by apply uploadChunks_quiet.
    cbn [app success_calls flat_map]. fold (success_calls (success_events r d')).
    now rewrite app_nil_r.
Qed.

Lemma resume_completes_despite_failures_witness :
  let res := handleUpload (Scenario.server (Some 2%nat)) 3
               (Scenario.render_of true Scenario.ready)
               (Scenario.at_start Scenario.ready) in
  List.length (fetch_events (log res)) = 5%nat
  /\ store (final res) = default_store
  /\ success_calls (log res) = [Some "https://cdn.example/lecture.mp4"%string].
Proof.
  pose proof (resume_completes_despite_failures (Scenario.server (Some 2%nat)) 3%nat
                (Scenario.render_of true Scenario.ready)
                (Scenario.at_start Scenario.ready)
                Scenario.lecture (Some Scenario.answer)
                eq_refl eq_refl eq_refl eq_refl eq_refl eq_refl) as H.
  cbv zeta in H. destruct H as (_ & Hev & Hok).
  destruct (Hok Scenario.answer eq_refl) as (Hst & Hcalls).
  cbv zeta. rewrite Hev, Hst, Hcalls. repeat split.
Defined.

Lemma handleFileSelect_decoded_witness :
  let O := {| net := fun _ => NetFail "offline";
              now := fun _ => 0;
              decode := fun f => Some {| duration := JsNum.of_Z 90;
                                         width := 1920; height := 1080;
                                         md_size := size f;
                                         format := extension_of f;
                                         thumbnail := None |} |} in
  title (form (store (final (handleFileSelect O
                               (Scenario.render_of true default_store)
                               (Some Scenario.lecture)
                               (Scenario.at_start default_store)))))
  = "lecture"%string.
Proof.
  intros O.
  pose proof (handleFileSelect_decoded O (Scenario.render_of true default_store)
                Scenario.lecture
                {| duration := JsNum.of_Z 90; width := 1920; height := 1080;
                   md_size := size Scenario.lecture;
                   format := extension_of Scenario.lecture;
                   thumbnail := None |}
                (Scenario.at_start default_store) eq_refl eq_refl) as H.
  cbv zeta in H. destruct H as (_ & _ & Ht & _). rewrite Ht. reflexivity.
Defined.
